(** * The continuous-test client of Mimir: write and read paths

    A shallow embedding of [pkg/continuoustest/client.go]: client
    construction ([NewClient]), the tenant-scoped round tripper
    ([clientRoundTripper.RoundTrip]), the batched remote-write path
    ([WriteSeries], [sendWriteRequest]) and the range-query path
    ([QueryRange]).

    Conventions of the embedding
    - a Go [int] is a [Z]; integer division is Go's truncated division
      ([Z.quot], written [÷] below);
    - a Go [error] is a value of [error]; the [nil] error is [None];
    - a Go slice is a list, the [nil] slice being the empty list; slice
      expressions check their bounds and panic outside them;
    - the network is an explicit state: every request handed to the
      innermost transport is appended, with its answer, to the [wire] log
      of the [World];
    - [http.Client.Do] is the loop of [net/http] under the default redirect
      policy: it may hand several requests to the transport, one for each
      redirect it follows;
    - contexts, deadlines and cancellation are not part of the model. *)

From Stdlib Require Import ZArith Lia.
From stdpp Require Import base option list strings gmap pretty.

Local Open Scope string_scope.
Local Open Scope Z_scope.
Local Open Scope list_scope.

(** ** Go values shared by the whole file *)

(** Error values.  [errors.New], [errors.Wrap]/[errors.Wrapf] (github.com/pkg/errors),
    [fmt.Errorf], the [*url.Error] in which [http.Client.Do] reports a
    transport failure, and errors made by library code. *)
Inductive error : Type :=
| errors_New (msg : string)
| errors_Wrap (cause : error) (msg : string)
| fmt_Errorf (msg : string)
| url_Error (op url : string) (cause : error)
| lib_Error (msg : string).

(** A Go function either returns or panics. *)
Inductive outcome (A : Type) : Type :=
| Returns (a : A)
| Panics (msg : string).
Arguments Returns {A} a.
Arguments Panics {A} msg.

Definition len {A : Type} (s : list A) : Z := Z.of_nat (length s).

(** The slice expression [s[lo:hi]].  The capacity of [s] is taken to be its
    length; outside [0 <= lo <= hi <= len s] the Go runtime panics. *)
Definition slice {A : Type} (s : list A) (lo hi : Z) : option (list A) :=
  if (0 <=? lo) && (lo <=? hi) && (hi <=? len s)
  then Some (take (Z.to_nat (hi - lo)) (drop (Z.to_nat lo) s))
  else None.

(** Modelled from the spec: [util_math.Min] of [pkg/util/math], which is not
    among the sources; the write path "takes up to batchSize from the
    front", so [Min] is the smaller of its two [int] arguments. *)
Definition util_math_Min (a b : Z) : Z := if a <? b then a else b.

Definition maxErrMsgLen : Z := 256.

(** ** HTTP data *)

(** [http.Header] is a [map[string][]string]. *)
Abbreviation Header := (gmap string (list string)).

(** An [io.Reader] over a response body: the bytes it delivers, then either
    end of file ([None]) or a read error. *)
Record Reader : Type := mkReader {
  content : list Byte.byte;
  fault : option error
}.

(** [io.LimitReader r n]: stops with end of file after [n] bytes. *)
Definition io_LimitReader (r : Reader) (n : Z) : Reader :=
  if len (content r) <? n
  then r
  else {| content := take (Z.to_nat n) (content r); fault := None |}.

(** [io.ReadAll]: everything up to end of file or the first error. *)
Definition io_ReadAll (r : Reader) : list Byte.byte * option error :=
  (content r, fault r).

Record Response : Type := mkResponse {
  Status : string;
  StatusCode : Z;
  RespHeader : Header;
  Body : Reader
}.

(** The status codes on which [http.Client] may go on to another request
    ([redirectBehavior] of [net/http]). *)
Definition redirect_status (statusCode : Z) : bool :=
  (statusCode =? 301) || (statusCode =? 302) || (statusCode =? 303) ||
  (statusCode =? 307) || (statusCode =? 308).

(** Time instants and durations, in nanoseconds. *)
Abbreviation time_Time := Z (only parsing).
Abbreviation time_Duration := Z (only parsing).

(** ** Values of a query result (prometheus/common/model) *)

Inductive ValueType : Type := ValNone | ValScalar | ValVector | ValMatrix | ValString.

#[global] Instance ValueType_eq_dec : EqDecision ValueType.
Proof. solve_decision. Defined.

(** Floating-point sample values are kept as their IEEE-754 bit pattern. *)
Record SamplePair : Type := { Timestamp : Z; Value : Z }.
Record SampleStream : Type := { Metric : gmap string string; Values : list SamplePair }.
Record Sample : Type := { SMetric : gmap string string; SValue : Z; STimestamp : Z }.
Record Scalar : Type := { ScValue : Z; ScTimestamp : Z }.
Record String_ : Type := { StValue : string; StTimestamp : Z }.

Abbreviation Matrix := (list SampleStream).
Abbreviation Vector := (list Sample).

(** [model.Value] is an interface; the library implements it by [Matrix],
    [Vector], [*Scalar] and [*String].  [Value_other] stands for any other
    implementation, whose [Type()] may declare whatever it likes. *)
Inductive model_Value : Type :=
| Value_Matrix (m : Matrix)
| Value_Vector (v : Vector)
| Value_Scalar (s : Scalar)
| Value_String (s : String_)
| Value_other (declared : ValueType) (repr : string).

Definition Value_Type (v : model_Value) : ValueType :=
  match v with
  | Value_Matrix _ => ValMatrix
  | Value_Vector _ => ValVector
  | Value_Scalar _ => ValScalar
  | Value_String _ => ValString
  | Value_other declared _ => declared
  end.

(** The type assertion [value.(model.Matrix)] in its comma-ok form. *)
Definition assert_Matrix (v : model_Value) : Matrix * bool :=
  match v with
  | Value_Matrix m => (m, true)
  | _ => ([], false)
  end.

(** [whole] contains [part] as a contiguous substring. *)
Fixpoint embeds (part whole : string) : bool :=
  String.prefix part whole ||
  match whole with
  | EmptyString => false
  | String _ rest => embeds part rest
  end.

(** ** Requests, and what the libraries provide *)

(** [http.Request], over the type of parsed URLs. *)
Record Request (U : Type) : Type := mkRequest {
  Method : string;
  URL : U;
  ReqHeader : Header;
  ReqBody : list Byte.byte
}.
Arguments mkRequest {U} _ _ _ _.
Arguments Method {U} _.
Arguments URL {U} _.
Arguments ReqHeader {U} _.
Arguments ReqBody {U} _.

(** [prompb.WriteRequest], over the type of its series. *)
Record WriteRequest (T : Type) : Type := { Timeseries : list T }.
Arguments Build_WriteRequest {T} _.
Arguments Timeseries {T} _.

(** What a method of the Prometheus API does with its HTTP client: it
    returns, or it sends a request and goes on from the answer. *)
Inductive ApiCall (U A : Type) : Type :=
| Api_return (a : A)
| Api_do (req : Request U) (k : Response + error -> ApiCall U A).
Arguments Api_return {U A} a.
Arguments Api_do {U A} req k.

Record v1_Range : Type := { Start : time_Time; End_ : time_Time; Step : time_Duration }.

(** [net/url], [net/textproto], [strconv], the protobuf and snappy codecs,
    the Prometheus API client, the default HTTP transport and the helpers of
    [http.Client.Do] are not part of the repository; the client is modelled
    over them. *)
Class Libraries : Type := {
  (** [url.URL], its [String] method and [url.Parse] *)
  url_URL : Type;
  URL_String : url_URL -> string;
  url_Parse : string -> url_URL + error;
  (** [textproto.CanonicalMIMEHeaderKey], under which [http.Header] files
      its keys *)
  CanonicalMIMEHeaderKey : string -> string;
  (** [strconv.Quote], the [%q] verb of [fmt] *)
  strconv_Quote : string -> string;
  (** [prompb.TimeSeries], and [proto.Marshal] on a [prompb.WriteRequest] *)
  TimeSeries : Type;
  proto_Marshal : WriteRequest TimeSeries -> list Byte.byte + error;
  (** [snappy.Encode nil] *)
  snappy_Encode : list Byte.byte -> list Byte.byte;
  (** [log.Logger] *)
  Logger : Type;
  (** the state of whatever answers on the other side of
      [http.DefaultTransport], and the answer of that transport to one
      request *)
  Net : Type;
  DefaultTransport : Request url_URL -> Net -> (Response + error) * Net;
  (** [v1.API.QueryRange] of [client_golang/api/prometheus/v1], as a call
      over the endpoint; the returned value may be the [nil] interface *)
  v1_httpAPI_QueryRange :
    url_URL -> string -> v1_Range ->
    ApiCall url_URL (option model_Value * option error);
  (** the user info of a URL, as user name and password (empty when not
      set), and [basicAuth] of [net/http] *)
  URL_User : url_URL -> option (string * string);
  basicAuth : string -> string -> string;
  (** [urlErrorOp] and [stripPassword] of [net/http], which make the [Op]
      and the [URL] of the [*url.Error] that [Client.Do] returns *)
  urlErrorOp : string -> string;
  stripPassword : url_URL -> string;
  (** what [send] of [net/http] makes of an error of the transport: the
      error itself, but for a TLS record header error that shows an answer
      in plain HTTP, in place of which it gives its own *)
  send_error : error -> error;
  (** what [Client.Do] does with an answer of a redirect status, given the
      requests sent so far (the last one is the one answered): nothing
      ([None]: the answer is handed back), the next request, or an error
      (a [Location] that does not parse, a body that cannot be had again) *)
  http_redirect :
    list (Request url_URL) -> Response -> option (Request url_URL + error)
}.

(** ** The client *)

Section Client.

Context {L : Libraries}.

(** *** Requests and headers *)

Definition Header_Set (h : Header) (key value : string) : Header :=
  <[CanonicalMIMEHeaderKey key := [value]]> h.

Definition Header_Add (h : Header) (key value : string) : Header :=
  let key := CanonicalMIMEHeaderKey key in
  <[key := (default [] (h !! key) ++ [value])%list]> h.

Definition Header_Get (h : Header) (key : string) : string :=
  match h !! CanonicalMIMEHeaderKey key with
  | Some (v :: _) => v
  | _ => EmptyString
  end.

(** A statement [req.Header.Set(key, value)] or [req.Header.Add(key, value)]
    on a request. *)
Definition with_Header (f : Header -> Header) (req : Request url_URL) : Request url_URL :=
  {| Method := Method req; URL := URL req;
     ReqHeader := f (ReqHeader req); ReqBody := ReqBody req |}.

(** [http.NewRequestWithContext ctx method url (bytes.NewReader body)]: fails
    when the URL does not parse. *)
Definition http_NewRequest (method url : string) (body : list Byte.byte)
  : Request url_URL + error :=
  match url_Parse url with
  | inr err => inr err
  | inl u => inl {| Method := method; URL := u; ReqHeader := ∅; ReqBody := body |}
  end.

(** *** The network as state *)

(** One request as it left the process, with what came back. *)
Definition Exchange : Type := Request url_URL * (Response + error).

Record World : Type := mkWorld {
  net : Net;
  wire : list Exchange
}.

(** Computations that talk to the network. *)
Definition M (A : Type) : Type := World -> A * World.

Definition ret {A : Type} (a : A) : M A := fun w => (a, w).

Definition bind {A B : Type} (m : M A) (k : A -> M B) : M B :=
  fun w => let (a, w') := m w in k a w'.

Notation "'let*' x ':=' m 'in' k" := (bind m (fun x => k))
  (at level 10, x pattern, m at level 100, k at level 200, only parsing).

(** [http.RoundTripper]: an interface of one method, [RoundTrip]. *)
Definition RoundTripper : Type := Request url_URL -> M (Response + error).

(** [http.DefaultTransport]: the request goes on the wire. *)
Definition http_DefaultTransport : RoundTripper :=
  fun req w =>
    let (r, n) := DefaultTransport req (net w) in
    (r, {| net := n; wire := wire w ++ [(req, r)] |}).

Record clientRoundTripper : Type := {
  tenantID : string;
  rt : RoundTripper
}.

(** RoundTrip add the tenant ID header required by Mimir. *)
Definition RoundTrip (self : clientRoundTripper) : RoundTripper :=
  fun req =>
    let req := with_Header (fun h => Header_Set h "X-Scope-OrgID" (tenantID self)) req in
    rt self req.

Record http_Client : Type := { Transport : RoundTripper }.

(** [send] of [net/http]: a request whose URL carries user info and that
    has no [Authorization] header yet is given basic authorization before
    it goes to the transport. *)
Definition http_send (req : Request url_URL) : Request url_URL :=
  match URL_User (URL req) with
  | Some (username, password) =>
    if String.eqb (Header_Get (ReqHeader req) "Authorization") EmptyString
    then with_Header
           (fun h => Header_Set h "Authorization" ("Basic " +:+ basicAuth username password))
           req
    else req
  | None => req
  end.

(** The [*url.Error] of [Client.Do]: its [Op] comes from the method of the
    first request, its [URL] is that of the last one, with the password
    masked.  [reqs] are the requests before [req]. *)
Definition uerr (reqs : list (Request url_URL)) (req : Request url_URL) (err : error)
  : error :=
  url_Error (urlErrorOp (Method (default req (head reqs)))) (stripPassword (URL req)) err.

(** The loop of [http.Client.Do], with [more] further requests allowed: the
    request goes through the transport; an answer of a redirect status may
    send the client on to another request, any other answer is handed back,
    and a failure of the transport comes back inside a [*url.Error]. *)
Fixpoint Client_hops (more : nat) (c : http_Client) (reqs : list (Request url_URL))
    (req : Request url_URL) : M (Response + error) :=
  let* r := Transport c (http_send req) in
  match r with
  | inr err => ret (inr (uerr reqs req (send_error err)))
  | inl resp =>
    if redirect_status (StatusCode resp)
    then
      match http_redirect (reqs ++ [req]) resp with
      | None => ret (inl resp)
      | Some (inr err) => ret (inr err)
      | Some (inl next) =>
        match more with
        | O =>
          ret (inr (url_Error (urlErrorOp (Method (default req (head reqs))))
                      (Header_Get (RespHeader resp) "Location")
                      (errors_New "stopped after 10 redirects")))
        | S more => Client_hops more c (reqs ++ [req]) next
        end
      end
    else ret (inl resp)
  end.

(** [http.Client.Do] under the default redirect policy, which stops after
    ten requests. *)
Definition Client_Do (c : http_Client) (req : Request url_URL) : M (Response + error) :=
  Client_hops 9 c [] req.

(** *** Configuration and construction *)

(** [flagext.URLValue] wraps a [*url.URL], which may be [nil]. *)
Definition flagext_URLValue : Type := option url_URL.

Definition URLValue_String (v : flagext_URLValue) : string :=
  match v with
  | None => EmptyString
  | Some u => URL_String u
  end.

Record ClientConfig : Type := {
  TenantID : string;
  WriteBaseEndpoint : flagext_URLValue;
  WriteBatchSize : Z;
  WriteTimeout : time_Duration;
  ReadBaseEndpoint : flagext_URLValue;
  ReadTimeout : time_Duration
}.

(** The Prometheus API client ([client_golang/api]): [api.NewClient] parses
    the address and keeps the round tripper of its configuration. *)
Record api_Config : Type := { Address : string; cfg_RoundTripper : RoundTripper }.
Record api_Client : Type := { endpoint : url_URL; client : http_Client }.

Definition api_NewClient (cfg : api_Config) : api_Client + error :=
  match url_Parse (Address cfg) with
  | inr err => inr err
  | inl u => inl {| endpoint := u; client := {| Transport := cfg_RoundTripper cfg |} |}
  end.

(** Running a call of the API against its HTTP client. *)
Fixpoint api_run {A : Type} (c : http_Client) (p : ApiCall url_URL A) : M A :=
  match p with
  | Api_return a => ret a
  | Api_do req k => let* r := Client_Do c req in api_run c (k r)
  end.

Record v1_API : Type := { api_client : api_Client }.

Definition v1_NewAPI (c : api_Client) : v1_API := {| api_client := c |}.

Definition API_QueryRange (a : v1_API) (query : string) (r : v1_Range)
  : M (option model_Value * option error) :=
  api_run (client (api_client a))
          (v1_httpAPI_QueryRange (endpoint (api_client a)) query r).

Record Client : Type := {
  writeClient : http_Client;
  readClient : v1_API;
  cfg : ClientConfig;
  logger : Logger
}.

Definition NewClient (cfg : ClientConfig) (logger : Logger)
  : option Client * option error :=
  let rt := http_DefaultTransport in
  let rt := RoundTrip {| tenantID := TenantID cfg; rt := rt |} in
  (* Ensure the required config has been set. *)
  match WriteBaseEndpoint cfg with
  | None => (None, Some (errors_New "the write endpoint has not been set"))
  | Some _ =>
    match ReadBaseEndpoint cfg with
    | None => (None, Some (errors_New "the read endpoint has not been set"))
    | Some _ =>
      let apiCfg := {| Address := URLValue_String (ReadBaseEndpoint cfg);
                       cfg_RoundTripper := rt |} in
      match api_NewClient apiCfg with
      | inr err => (None, Some (errors_Wrap err "failed to create read client"))
      | inl readClient =>
        (Some {| writeClient := {| Transport := rt |};
                 readClient := v1_NewAPI readClient;
                 cfg := cfg;
                 logger := logger |}, None)
      end
    end
  end.

(** *** The read path *)

(** QueryRange implements MimirClient. *)
Definition QueryRange (c : Client) (query : string) (start end_ : time_Time)
    (step : time_Duration) : M (outcome (Matrix * option error)) :=
  let* (value, err) :=
    API_QueryRange (readClient c) query {| Start := start; End_ := end_; Step := step |} in
  match err with
  | Some err => ret (Returns ([], Some err))
  | None =>
    match value with
    | None => ret (Panics "invalid memory address or nil pointer dereference")
    | Some value =>
      if decide (Value_Type value ≠ ValMatrix)
      then ret (Returns ([], Some (errors_New "was expecting to get a Matrix")))
      else
        let (matrix, ok) := assert_Matrix value in
        if negb ok
        then ret (Returns ([], Some (errors_New "failed to cast type to Matrix")))
        else ret (Returns (matrix, None))
    end
  end.

(** *** The write path *)

Definition sendWriteRequest (c : Client) (req : WriteRequest TimeSeries)
  : M (Z * option error) :=
  match proto_Marshal req with
  | inr err => ret (0, Some err)
  | inl data =>
    let compressed := snappy_Encode data in
    match http_NewRequest "POST"
            (URLValue_String (WriteBaseEndpoint (cfg c)) +:+ "/api/v1/push")
            compressed with
    | inr err =>
      (* Errors from NewRequest are from unparseable URLs, so are not
         recoverable. *)
      ret (0, Some err)
    | inl httpReq =>
      let httpReq := with_Header (fun h => Header_Add h "Content-Encoding" "snappy") httpReq in
      let httpReq := with_Header (fun h => Header_Set h "Content-Type" "application/x-protobuf") httpReq in
      let httpReq := with_Header (fun h => Header_Set h "User-Agent" "mimir-continuous-test") httpReq in
      let httpReq := with_Header (fun h => Header_Set h "X-Prometheus-Remote-Write-Version" "0.1.0") httpReq in
      let* r := Client_Do (writeClient c) httpReq in
      match r with
      | inr err => ret (0, Some err)
      | inl httpResp =>
        if negb (StatusCode httpResp ÷ 100 =? 2)
        then
          match io_ReadAll (io_LimitReader (Body httpResp) maxErrMsgLen) with
          | (_, Some err) =>
            ret (StatusCode httpResp,
                 Some (errors_Wrap err
                         ("server returned HTTP status " +:+ Status httpResp +:+
                          " and client failed to read response body")))
          | (truncatedBody, None) =>
            ret (StatusCode httpResp,
                 Some (fmt_Errorf
                         ("server returned HTTP status " +:+ Status httpResp +:+
                          " and body " +:+
                          strconv_Quote (String.string_of_list_byte truncatedBody) +:+
                          " (truncated to " +:+ pretty maxErrMsgLen +:+ " bytes)")))
          end
        else ret (StatusCode httpResp, None)
      end
    end
  end.

(** What one turn of the loop of [WriteSeries] leaves behind. *)
Inductive turn : Type :=
| Again (series : list TimeSeries) (lastStatusCode : Z)
| Done (statusCode : Z) (err : option error)
| Panicked (msg : string).

(** The body of [for len(series) > 0 { ... }]. *)
Definition WriteSeries_body (c : Client) (series : list TimeSeries) : M turn :=
  let end_ := util_math_Min (len series) (WriteBatchSize (cfg c)) in
  match slice series 0 end_ with
  | None => ret (Panicked "slice bounds out of range")
  | Some batch =>
    match slice series end_ (len series) with
    | None => ret (Panicked "slice bounds out of range")
    | Some series =>
      let* (lastStatusCode, err) := sendWriteRequest c {| Timeseries := batch |} in
      match err with
      | Some _ => ret (Done lastStatusCode err)
      | None => ret (Again series lastStatusCode)
      end
    end
  end.

(** The loop, run for at most [fuel] turns; the result is [None] when the
    turns run out before the loop is left. *)
Fixpoint WriteSeries_loop (fuel : nat) (c : Client) (series : list TimeSeries)
    (lastStatusCode : Z) : M (option (outcome (Z * option error))) :=
  if 0 <? len series
  then
    match fuel with
    | O => ret None
    | S fuel =>
      let* t := WriteSeries_body c series in
      match t with
      | Again series lastStatusCode => WriteSeries_loop fuel c series lastStatusCode
      | Done statusCode err => ret (Some (Returns (statusCode, err)))
      | Panicked msg => ret (Some (Panics msg))
      end
    end
  else ret (Some (Returns (lastStatusCode, None))).

(** WriteSeries implements MimirClient. *)
Definition WriteSeries (fuel : nat) (c : Client) (series : list TimeSeries)
  : M (option (outcome (Z * option error))) :=
  let lastStatusCode := 0 in
  (* Honor the batch size. *)
  WriteSeries_loop fuel c series lastStatusCode.

(** *** Observations on a run *)

(** The [Error()] text of an error value. *)
Fixpoint Error (e : error) : string :=
  match e with
  | errors_New msg => msg
  | errors_Wrap cause msg => msg +:+ ": " +:+ Error cause
  | fmt_Errorf msg => msg
  | url_Error op url cause => op +:+ " " +:+ strconv_Quote url +:+ ": " +:+ Error cause
  | lib_Error msg => msg
  end.

(** The exchanges put on the wire between two states of the world. *)
Definition issued (w w' : World) : list Exchange :=
  drop (length (wire w)) (wire w').

(** What is added to the wire between [w] and [w'], all of it under the
    tenant header. *)
Definition tenant_wire (tenant : string) (w w' : World) : Prop :=
  exists new,
    wire w' = wire w ++ new /\
    Forall (fun x : Exchange => Header_Get (ReqHeader x.1) "X-Scope-OrgID" = tenant) new.

(** A status code of the 2xx class, as [sendWriteRequest] tests it. *)
Definition is2xx (statusCode : Z) : bool := statusCode ÷ 100 =? 2.

(** The part of [sendWriteRequest] before the round trip: the request it
    hands to its HTTP client, or the error that stops it before anything
    is sent. *)
Definition prepared (cfg : ClientConfig) (req : WriteRequest TimeSeries)
  : Request url_URL + error :=
  match proto_Marshal req with
  | inr err => inr err
  | inl data =>
    match http_NewRequest "POST"
            (URLValue_String (WriteBaseEndpoint cfg) +:+ "/api/v1/push")
            (snappy_Encode data) with
    | inr err => inr err
    | inl httpReq =>
      inl (with_Header (fun h => Header_Set h "X-Prometheus-Remote-Write-Version" "0.1.0")
          (with_Header (fun h => Header_Set h "User-Agent" "mimir-continuous-test")
          (with_Header (fun h => Header_Set h "Content-Type" "application/x-protobuf")
          (with_Header (fun h => Header_Add h "Content-Encoding" "snappy") httpReq))))
    end
  end.

(** The tenant header as [RoundTrip] sets it. *)
Definition stamped (tenant : string) (req : Request url_URL) : Request url_URL :=
  with_Header (fun h => Header_Set h "X-Scope-OrgID" tenant) req.

(** The request for [req] as it reaches the default transport. *)
Definition on_wire (tenant : string) (req : Request url_URL) : Request url_URL :=
  stamped tenant (http_send req).

(** The part of [sendWriteRequest] after a response has come back. *)
Definition classify (httpResp : Response) : Z * option error :=
  if negb (is2xx (StatusCode httpResp))
  then
    match io_ReadAll (io_LimitReader (Body httpResp) maxErrMsgLen) with
    | (_, Some err) =>
      (StatusCode httpResp,
       Some (errors_Wrap err
               ("server returned HTTP status " +:+ Status httpResp +:+
                " and client failed to read response body")))
    | (truncatedBody, None) =>
      (StatusCode httpResp,
       Some (fmt_Errorf
               ("server returned HTTP status " +:+ Status httpResp +:+
                " and body " +:+
                strconv_Quote (String.string_of_list_byte truncatedBody) +:+
                " (truncated to " +:+ pretty maxErrMsgLen +:+ " bytes)")))
    end
  else (StatusCode httpResp, None).

(** The part of [sendWriteRequest] after [Client.Do]: status code and error
    for what [Do] returned. *)
Definition outcome_of (r : Response + error) : Z * option error :=
  match r with
  | inr err => (0, Some err)
  | inl httpResp => classify httpResp
  end.

(** The same for the answer [r] of the transport to the request [req], when
    [Do] stops at that answer. *)
Definition verdict (req : Request url_URL) (r : Response + error) : Z * option error :=
  match r with
  | inr err => (0, Some (uerr [] req (send_error err)))
  | inl httpResp => classify httpResp
  end.

(** An answer at which [Client.Do] stops whatever the library makes of
    redirects: an error of the transport, or a response whose status is not
    a redirect status. *)
Definition final (r : Response + error) : Prop :=
  match r with
  | inl resp => redirect_status (StatusCode resp) = false
  | inr _ => True
  end.

(** No answer in [new] has a redirect status. *)
Definition no_redirects (new : list Exchange) : Prop :=
  Forall (fun x : Exchange => final x.2) new.

(** The exchanges and the result of one [Client.Do]: the requests are sent
    one after the other, each but the last answered with a redirect status
    that the client follows. *)
Inductive round_trips (tenant : string)
  : nat -> list (Request url_URL) -> Request url_URL ->
    list Exchange -> Response + error -> Prop :=
| trips_error more reqs req err :
    round_trips tenant more reqs req
      [(on_wire tenant req, inr err)] (inr (uerr reqs req (send_error err)))
| trips_back more reqs req resp :
    redirect_status (StatusCode resp) = false \/ http_redirect (reqs ++ [req]) resp = None ->
    round_trips tenant more reqs req [(on_wire tenant req, inl resp)] (inl resp)
| trips_refused more reqs req resp err :
    redirect_status (StatusCode resp) = true ->
    http_redirect (reqs ++ [req]) resp = Some (inr err) ->
    round_trips tenant more reqs req [(on_wire tenant req, inl resp)] (inr err)
| trips_limit reqs req resp next :
    redirect_status (StatusCode resp) = true ->
    http_redirect (reqs ++ [req]) resp = Some (inl next) ->
    round_trips tenant O reqs req [(on_wire tenant req, inl resp)]
      (inr (url_Error (urlErrorOp (Method (default req (head reqs))))
              (Header_Get (RespHeader resp) "Location")
              (errors_New "stopped after 10 redirects")))
| trips_follow more reqs req resp next rest r :
    redirect_status (StatusCode resp) = true ->
    http_redirect (reqs ++ [req]) resp = Some (inl next) ->
    round_trips tenant more (reqs ++ [req]) next rest r ->
    round_trips tenant (S more) reqs req ((on_wire tenant req, inl resp) :: rest) r.

(** The [i]-th batch of [series] for batch size [B]: [series[i*B : min((i+1)*B, N)]]. *)
Definition batch_at (B : Z) (series : list TimeSeries) (i : nat) : list TimeSeries :=
  take (Z.to_nat B) (drop (i * Z.to_nat B) series).

(** The number of batches, [ceil(N/B)]. *)
Definition batch_count (B : Z) (series : list TimeSeries) : Z :=
  (len series + B - 1) / B.

(** The exchanges and the result of the batching loop, for a batch size of
    at least one, when every [Client.Do] stops at its first answer: what a
    run from [series] and [lastStatusCode] may put on the wire and return. *)
Inductive run (cfg : ClientConfig)
  : list TimeSeries -> Z -> list Exchange -> Z * option error -> Prop :=
| run_empty lastStatusCode :
    run cfg [] lastStatusCode [] (lastStatusCode, None)
| run_unsent series lastStatusCode err :
    series ≠ [] ->
    prepared cfg {| Timeseries := take (Z.to_nat (WriteBatchSize cfg)) series |} = inr err ->
    run cfg series lastStatusCode [] (0, Some err)
| run_failed series lastStatusCode req r statusCode err :
    series ≠ [] ->
    prepared cfg {| Timeseries := take (Z.to_nat (WriteBatchSize cfg)) series |} = inl req ->
    verdict req r = (statusCode, Some err) ->
    run cfg series lastStatusCode [(on_wire (TenantID cfg) req, r)] (statusCode, Some err)
| run_next series lastStatusCode req r statusCode rest res :
    series ≠ [] ->
    prepared cfg {| Timeseries := take (Z.to_nat (WriteBatchSize cfg)) series |} = inl req ->
    verdict req r = (statusCode, None) ->
    run cfg (drop (Z.to_nat (WriteBatchSize cfg)) series) statusCode rest res ->
    run cfg series lastStatusCode ((on_wire (TenantID cfg) req, r) :: rest) res.

(** The same when a [Client.Do] may take several round trips: what a run of
    the loop may put on the wire and return, whatever is answered. *)
Inductive calls (cfg : ClientConfig)
  : list TimeSeries -> Z -> list Exchange -> Z * option error -> Prop :=
| calls_empty lastStatusCode :
    calls cfg [] lastStatusCode [] (lastStatusCode, None)
| calls_unsent series lastStatusCode err :
    series ≠ [] ->
    prepared cfg {| Timeseries := take (Z.to_nat (WriteBatchSize cfg)) series |} = inr err ->
    calls cfg series lastStatusCode [] (0, Some err)
| calls_failed series lastStatusCode req hops r statusCode err :
    series ≠ [] ->
    prepared cfg {| Timeseries := take (Z.to_nat (WriteBatchSize cfg)) series |} = inl req ->
    round_trips (TenantID cfg) 9 [] req hops r ->
    outcome_of r = (statusCode, Some err) ->
    calls cfg series lastStatusCode hops (statusCode, Some err)
| calls_next series lastStatusCode req hops r statusCode rest res :
    series ≠ [] ->
    prepared cfg {| Timeseries := take (Z.to_nat (WriteBatchSize cfg)) series |} = inl req ->
    round_trips (TenantID cfg) 9 [] req hops r ->
    outcome_of r = (statusCode, None) ->
    calls cfg (drop (Z.to_nat (WriteBatchSize cfg)) series) statusCode rest res ->
    calls cfg series lastStatusCode (hops ++ rest) res.

End Client.

(** ** A small instance of the libraries, on which the statements below are
    exercised *)

Module Demo.

Definition dquote : string := String (Ascii.ascii_of_nat 34) EmptyString.

Definition backslash : string := String (Ascii.ascii_of_nat 92) EmptyString.

(** Quoting as [%q] does it, for the characters met here: the line feed, the
    quote and the backslash are escaped, the others stand as they are. *)
Fixpoint escaped (s : string) : string :=
  match s with
  | EmptyString => EmptyString
  | String a s =>
    (if Ascii.eqb a (Ascii.ascii_of_nat 10) then backslash +:+ "n"
     else if Ascii.eqb a (Ascii.ascii_of_nat 34) then backslash +:+ dquote
     else if Ascii.eqb a (Ascii.ascii_of_nat 92) then backslash +:+ backslash
     else String a EmptyString) +:+ escaped s
  end.

Definition quote (s : string) : string := dquote +:+ escaped s +:+ dquote.

(** A URL is kept as its text; only [http://] addresses parse. *)
Definition parse (s : string) : string + error :=
  if String.prefix "http://" s then inl s
  else inr (lib_Error ("parse " +:+ s +:+ ": unsupported protocol scheme")).

(** A series is one byte; a request holding the zero byte does not marshal. *)
Definition marshal (req : WriteRequest Byte.byte) : list Byte.byte + error :=
  if existsb (Byte.eqb Byte.x00) (Timeseries req)
  then inr (lib_Error "proto: cannot marshal")
  else inl (Timeseries req).

Definition unmarshal (data : list Byte.byte) : WriteRequest Byte.byte + error :=
  inl {| Timeseries := data |}.

(** Compression puts a tag byte in front. *)
Definition encode (data : list Byte.byte) : list Byte.byte := Byte.xff :: data.

Definition decode (data : list Byte.byte) : list Byte.byte + error :=
  match data with
  | Byte.xff :: data => inl data
  | _ => inr (lib_Error "snappy: corrupt input")
  end.

(** The network answers from a script, then with [204 No Content]. *)
Definition no_content : Response :=
  {| Status := "204 No Content"; StatusCode := 204; RespHeader := ∅;
     Body := {| content := []; fault := None |} |}.

Definition scripted (req : Request string) (script : list (Response + error))
  : (Response + error) * list (Response + error) :=
  match script with
  | [] => (inl no_content, [])
  | r :: script => (r, script)
  end.

(** A range query is one GET; the first byte of the answer tells the kind of
    value. *)
Definition query_range (u : string) (query : string) (r : v1_Range)
  : ApiCall string (option model_Value * option error) :=
  Api_do {| Method := "GET"; URL := u +:+ "/api/v1/query_range"; ReqHeader := ∅; ReqBody := [] |}
    (fun answer =>
       match answer with
       | inr err => Api_return (None, Some err)
       | inl resp =>
         match content (Body resp) with
         | Byte.x6d :: _ => Api_return (Some (Value_Matrix [{| Metric := ∅; Values := [{| Timestamp := 1; Value := 2 |}] |}]), None)
         | Byte.x76 :: _ => Api_return (Some (Value_Vector []), None)
         | Byte.x73 :: _ => Api_return (Some (Value_Scalar {| ScValue := 0; ScTimestamp := 0 |}), None)
         | Byte.x6f :: _ => Api_return (Some (Value_other ValMatrix "impostor"), None)
         | Byte.x6e :: _ => Api_return (None, None)
         | _ => Api_return (None, Some (lib_Error "bad_response: unexpected value type"))
         end
       end).

(** The [Op] of a [*url.Error] for the two methods in use. *)
Definition error_op (method : string) : string :=
  if String.eqb method "POST" then "Post"
  else if String.eqb method "GET" then "Get"
  else method.

(** An answer of a redirect status is followed when it names a [Location]:
    with the same method and body after 307 and 308, with a GET and no body
    otherwise. *)
Definition follow (reqs : list (Request string)) (resp : Response)
  : option (Request string + error) :=
  match last reqs, RespHeader resp !! "Location" with
  | Some req, Some (loc :: _) =>
    if negb (String.prefix "http://" loc)
    then Some (inr (lib_Error ("failed to parse Location header " +:+ loc)))
    else if (StatusCode resp =? 307) || (StatusCode resp =? 308)
    then Some (inl {| Method := Method req; URL := loc;
                      ReqHeader := ReqHeader req; ReqBody := ReqBody req |})
    else Some (inl {| Method := "GET"; URL := loc;
                      ReqHeader := ReqHeader req; ReqBody := [] |})
  | _, _ => None
  end.

#[export] Instance libs : Libraries := {|
  url_URL := string;
  URL_String := fun u => u;
  url_Parse := parse;
  CanonicalMIMEHeaderKey := fun k => k;
  strconv_Quote := quote;
  TimeSeries := Byte.byte;
  proto_Marshal := marshal;
  snappy_Encode := encode;
  Logger := unit;
  Net := list (Response + error);
  DefaultTransport := scripted;
  v1_httpAPI_QueryRange := query_range;
  URL_User := fun _ => None;
  basicAuth := fun username password => username +:+ ":" +:+ password;
  urlErrorOp := error_op;
  stripPassword := fun u => u;
  send_error := fun err => err;
  http_redirect := follow
|}.

Definition config (B : Z) : ClientConfig :=
  {| TenantID := "anonymous";
     WriteBaseEndpoint := Some "http://mimir";
     WriteBatchSize := B;
     WriteTimeout := 5000000000;
     ReadBaseEndpoint := Some "http://mimir/prometheus";
     ReadTimeout := 30000000000 |}.

(** The client [NewClient] makes for [config B]. *)
Definition client (B : Z) : Client :=
  let rt := RoundTrip {| tenantID := "anonymous"; rt := http_DefaultTransport |} in
  {| writeClient := {| Transport := rt |};
     readClient := v1_NewAPI {| endpoint := "http://mimir/prometheus";
                                client := {| Transport := rt |} |};
     cfg := config B;
     logger := tt |}.

Definition world (script : list (Response + error)) : World :=
  {| net := script; wire := [] |}.

Definition answer (code : Z) (status : string) (body : list Byte.byte) : Response + error :=
  inl {| Status := status; StatusCode := code; RespHeader := ∅;
         Body := {| content := body; fault := None |} |}.

(** A configuration in which the read endpoint was never set. *)
Definition write_only : ClientConfig :=
  {| TenantID := "anonymous";
     WriteBaseEndpoint := Some "http://mimir";
     WriteBatchSize := 1000;
     WriteTimeout := 5000000000;
     ReadBaseEndpoint := None;
     ReadTimeout := 30000000000 |}.

Definition five : list Byte.byte := [Byte.x01; Byte.x02; Byte.x03; Byte.x04; Byte.x05].

Definition ok : Response + error := answer 200 "200 OK" [].

Definition unavailable : Response + error :=
  answer 503 "503 Service Unavailable" [Byte.x62; Byte.x75; Byte.x73; Byte.x79].

(** An answer whose body breaks off after four bytes. *)
Definition cut_short : Response :=
  {| Status := "500 Internal Server Error"; StatusCode := 500; RespHeader := ∅;
     Body := {| content := [Byte.x62; Byte.x6f; Byte.x6f; Byte.x6d];
                fault := Some (lib_Error "unexpected EOF") |} |}.

(** A temporary redirect to another push address. *)
Definition moved : Response + error :=
  inl {| Status := "307 Temporary Redirect"; StatusCode := 307;
         RespHeader := {[ "Location" := ["http://mimir-b/api/v1/push"] ]};
         Body := {| content := []; fault := None |} |}.

(** An answer whose body is one line feed. *)
Definition line_feed : Response + error :=
  answer 400 "400 Bad Request" [Byte.x0a].

End Demo.

(** ** Flag registration *)

(** The [flag] package, as far as [RegisterFlags] uses it: a flag set and
    the four ways of defining a flag on it, each of which panics when the
    name is taken.  [FlagSet_Var] is given the text of the value as it
    stands, which the flag set keeps as the default. *)
Class FlagPackage : Type := {
  flag_FlagSet : Type;
  FlagSet_Var : flag_FlagSet -> string -> string -> string -> outcome flag_FlagSet;
  FlagSet_StringVar : flag_FlagSet -> string -> string -> string -> outcome flag_FlagSet;
  FlagSet_IntVar : flag_FlagSet -> string -> Z -> string -> outcome flag_FlagSet;
  FlagSet_DurationVar : flag_FlagSet -> string -> time_Duration -> string -> outcome flag_FlagSet
}.

Definition time_Second : time_Duration := 1000000000.

Section Flags.

Context {L : Libraries} {F : FlagPackage}.

(** A panic ends the function; otherwise it goes on with the flag set. *)
Definition and_then {A B : Type} (o : outcome A) (k : A -> outcome B) : outcome B :=
  match o with
  | Returns a => k a
  | Panics msg => Panics msg
  end.

(** [RegisterFlags]: a typed [XxxVar] stores its default into the field
    before the flag is defined; [Var] leaves the field as it is. *)
Definition RegisterFlags (cfg : ClientConfig) (f : flag_FlagSet)
  : outcome (ClientConfig * flag_FlagSet) :=
  let cfg := {| TenantID := "anonymous";
                WriteBaseEndpoint := WriteBaseEndpoint cfg;
                WriteBatchSize := WriteBatchSize cfg;
                WriteTimeout := WriteTimeout cfg;
                ReadBaseEndpoint := ReadBaseEndpoint cfg;
                ReadTimeout := ReadTimeout cfg |} in
  and_then (FlagSet_StringVar f "tests.tenant-id" "anonymous"
              "The tenant ID to use to write and read metrics in tests.") (fun f =>
  and_then (FlagSet_Var f (URLValue_String (WriteBaseEndpoint cfg)) "tests.write-endpoint"
              "The base endpoint on the write path. The URL should have no trailing slash. The specific API path is appended by the tool to the URL, for example /api/v1/push for the remote write API endpoint, so the configured URL must not include it.") (fun f =>
  let cfg := {| TenantID := TenantID cfg;
                WriteBaseEndpoint := WriteBaseEndpoint cfg;
                WriteBatchSize := 1000;
                WriteTimeout := WriteTimeout cfg;
                ReadBaseEndpoint := ReadBaseEndpoint cfg;
                ReadTimeout := ReadTimeout cfg |} in
  and_then (FlagSet_IntVar f "tests.write-batch-size" 1000
              "The maximum number of series to write in a single request.") (fun f =>
  let cfg := {| TenantID := TenantID cfg;
                WriteBaseEndpoint := WriteBaseEndpoint cfg;
                WriteBatchSize := WriteBatchSize cfg;
                WriteTimeout := 5 * time_Second;
                ReadBaseEndpoint := ReadBaseEndpoint cfg;
                ReadTimeout := ReadTimeout cfg |} in
  and_then (FlagSet_DurationVar f "tests.write-timeout" (5 * time_Second)
              "The timeout for a single write request.") (fun f =>
  and_then (FlagSet_Var f (URLValue_String (ReadBaseEndpoint cfg)) "tests.read-endpoint"
              "The base endpoint on the read path. The URL should have no trailing slash. The specific API path is appended by the tool to the URL, for example /api/v1/query_range for range query API, so the configured URL must not include it.") (fun f =>
  let cfg := {| TenantID := TenantID cfg;
                WriteBaseEndpoint := WriteBaseEndpoint cfg;
                WriteBatchSize := WriteBatchSize cfg;
                WriteTimeout := WriteTimeout cfg;
                ReadBaseEndpoint := ReadBaseEndpoint cfg;
                ReadTimeout := 30 * time_Second |} in
  and_then (FlagSet_DurationVar f "tests.read-timeout" (30 * time_Second)
              "The timeout for a single read request.") (fun f =>
  Returns (cfg, f))))))).

(** The exchanges of one [Client.Do] for a request of the write path. *)
Definition write_call (cfg : ClientConfig) (hops : list Exchange) : Prop :=
  exists req httpReq r,
    prepared cfg req = inl httpReq /\
    round_trips (TenantID cfg) 9 [] httpReq hops r.

(** What is added to the wire between [w] and [w'], all of it made of such
    calls, one after the other. *)
Definition wire_calls (cfg : ClientConfig) (w w' : World) : Prop :=
  exists groups, wire w' = wire w ++ concat groups /\ Forall (write_call cfg) groups.

(** A request of the write path: the one prepared for some write request,
    as it reaches the default transport. *)
Definition write_exchange (cfg : ClientConfig) (x : Exchange) : Prop :=
  exists req httpReq,
    prepared cfg req = inl httpReq /\ x.1 = on_wire (TenantID cfg) httpReq.

(** The names of the headers of a write request. *)
Definition write_header_names : list string :=
  ["Content-Encoding"; "Content-Type"; "User-Agent";
   "X-Prometheus-Remote-Write-Version"; "X-Scope-OrgID"].

End Flags.

(** ** The release script of the documentation ([tools/release-docs]) *)

Module ReleaseDocs.

(** The parameter expansion [${name:-word}]: [word] when the variable is
    unset or empty. *)
Definition or_default (value : option string) (word : string) : string :=
  match value with
  | None => word
  | Some EmptyString => word
  | Some v => v
  end.

Fixpoint skip (n : nat) (s : string) : string :=
  match n, s with
  | O, _ => s
  | S n, String _ s => skip n s
  | S _, EmptyString => EmptyString
  end.

(** The parameter expansion [${s/pat/}] for a pattern without wildcards:
    the first occurrence of [pat] in [s], from the left, is removed. *)
Fixpoint remove_first (pat s : string) : string :=
  if String.prefix pat s
  then skip (String.length pat) s
  else
    match s with
    | EmptyString => EmptyString
    | String a s => String a (remove_first pat s)
    end.

(** What [wet_run] does with a command: run it, or print a line. *)
Inductive action : Type :=
| Run (argv : list string)
| Echo (line : string).

Definition dquote : string := String (Ascii.ascii_of_nat 34) EmptyString.

(** The words of a command as ["$*"] joins them. *)
Definition star (argv : list string) : string := String.concat " " argv.

(** wet_run will run a command iff NO_DRY_RUN has a truth-y value.
    Otherwise it log that the command was not run. *)
Definition wet_run (NO_DRY_RUN : string) (argv : list string) : action :=
  if String.eqb NO_DRY_RUN "t" || String.eqb NO_DRY_RUN "1" || String.eqb NO_DRY_RUN "true"
  then Run argv
  else Echo ("Not running " +:+ dquote +:+ star argv +:+ dquote +:+
             " as the NO_DRY_RUN environment variable is not 'true'").

(** The read-only variables the script sets up from its two arguments and
    from the environment. *)
Record settings : Type := {
  NO_DRY_RUN : string;
  WEBSITE_DIR : string;
  TAG : string;
  VERSION : string;
  MIMIR_DIR : string;
  MIMIR_REMOTE : string;
  WEBSITE_BRANCH : string;
  WEBSITE_REMOTE : string;
  WEBSITE_BASE_BRANCH : string
}.

(** The head of the script: with other than two arguments it shows the help
    and exits with status 1 ([inr 1]); [toplevel] is what
    [git rev-parse --show-toplevel] prints. *)
Definition setup (env : gmap string string) (toplevel : string) (args : list string)
  : settings + Z :=
  match args with
  | [dir; tag] =>
    let version := remove_first "mimir-" tag in
    inl {| NO_DRY_RUN := or_default (env !! "NO_DRY_RUN") "0";
           WEBSITE_DIR := dir;
           TAG := tag;
           VERSION := version;
           MIMIR_DIR := or_default (env !! "MIMIR_DIR") toplevel;
           MIMIR_REMOTE := or_default (env !! "MIMIR_REMOTE") "origin";
           WEBSITE_BRANCH := or_default (env !! "WEBSITE_BRANCH") ("mimir-release-" +:+ version);
           WEBSITE_REMOTE := or_default (env !! "WEBSITE_REMOTE") "origin";
           WEBSITE_BASE_BRANCH := or_default (env !! "WEBSITE_BASE_BRANCH") "master" |}
  | _ => inr 1
  end.

(** The last line of the script:
    [wet_run git push "${WEBSITE_REMOTE}" HEAD:"${WEBSITE_BRANCH}"]. *)
Definition push (s : settings) : action :=
  wet_run (NO_DRY_RUN s) ["git"; "push"; WEBSITE_REMOTE s; "HEAD:" +:+ WEBSITE_BRANCH s].

End ReleaseDocs.

(** ** More of the small instance *)

Module Fixtures.

#[local] Existing Instance Demo.libs.

(** A flag set is the list of the names defined on it. *)
Definition define (f : list string) (name : string) : outcome (list string) :=
  if bool_decide (name ∈ f)
  then Panics ("flag redefined: " +:+ name)
  else Returns (f ++ [name]).

#[export] Instance flags : FlagPackage := {|
  flag_FlagSet := list string;
  FlagSet_Var := fun f _ name _ => define f name;
  FlagSet_StringVar := fun f name _ _ => define f name;
  FlagSet_IntVar := fun f name _ _ => define f name;
  FlagSet_DurationVar := fun f name _ _ => define f name
|}.

(** The zero value of [ClientConfig]. *)
Definition zero_config : ClientConfig :=
  {| TenantID := EmptyString;
     WriteBaseEndpoint := None;
     WriteBatchSize := 0;
     WriteTimeout := 0;
     ReadBaseEndpoint := None;
     ReadTimeout := 0 |}.

(** A configuration whose read address does not parse. *)
Definition bad_read : ClientConfig :=
  {| TenantID := "anonymous";
     WriteBaseEndpoint := Some "http://mimir";
     WriteBatchSize := 1000;
     WriteTimeout := 5000000000;
     ReadBaseEndpoint := Some "mimir:8080";
     ReadTimeout := 30000000000 |}.

(** A configuration whose write address does not parse, and the client
    [NewClient] makes for it. *)
Definition bad_write (B : Z) : ClientConfig :=
  {| TenantID := "anonymous";
     WriteBaseEndpoint := Some "mimir:8080";
     WriteBatchSize := B;
     WriteTimeout := 5000000000;
     ReadBaseEndpoint := Some "http://mimir/prometheus";
     ReadTimeout := 30000000000 |}.

Definition bad_write_client (B : Z) : Client :=
  let rt := RoundTrip {| tenantID := "anonymous"; rt := http_DefaultTransport |} in
  {| writeClient := {| Transport := rt |};
     readClient := v1_NewAPI {| endpoint := "http://mimir/prometheus";
                                client := {| Transport := rt |} |};
     cfg := bad_write B;
     logger := tt |}.

End Fixtures.

(** ** Properties *)

Section Properties.

Context {L : Libraries}.

Implicit Types (cfg : ClientConfig) (c : Client) (w : World).
Implicit Types (series : list TimeSeries) (new : list Exchange).

(** *** Slices and batches *)

Lemma len_nonneg {A : Type} (s : list A) : 0 <= len s.
Proof. unfold len. lia. Qed.

Lemma len_pos {A : Type} (s : list A) : (0 <? len s) = true <-> s ≠ [].
Proof.
  unfold len. destruct s as [|a s]; simpl.
  - split; [discriminate | congruence].
  - split; [discriminate | intros _; apply Z.ltb_lt; lia].
Qed.

Lemma slice_front {A : Type} (s : list A) (B : Z) :
  1 <= B ->
  slice s 0 (util_math_Min (len s) B) = Some (take (Z.to_nat B) s).
Proof.
  intros HB. unfold slice, util_math_Min, len.
  change (Z.to_nat 0) with O. rewrite drop_0.
  destruct (Z.ltb_spec (Z.of_nat (length s)) B) as [Hlt | Hge].
  - rewrite !(proj2 (Z.leb_le _ _)) by lia. simpl. f_equal.
    rewrite !take_ge by lia. done.
  - rewrite !(proj2 (Z.leb_le _ _)) by lia. simpl.
    by rewrite Z.sub_0_r.
Qed.

Lemma slice_back {A : Type} (s : list A) (B : Z) :
  1 <= B ->
  slice s (util_math_Min (len s) B) (len s) = Some (drop (Z.to_nat B) s).
Proof.
  intros HB. unfold slice, util_math_Min, len.
  destruct (Z.ltb_spec (Z.of_nat (length s)) B) as [Hlt | Hge].
  - rewrite !(proj2 (Z.leb_le _ _)) by lia. simpl. f_equal.
    rewrite Z.sub_diag. simpl. rewrite take_0, drop_ge; [done | lia].
  - rewrite !(proj2 (Z.leb_le _ _)) by lia. simpl. f_equal.
    rewrite take_ge; [done |]. rewrite length_drop. lia.
Qed.

Lemma slice_negative {A : Type} (s : list A) (B : Z) :
  B < 0 -> s ≠ [] -> slice s 0 (util_math_Min (len s) B) = None.
Proof.
  intros HB Hs. unfold slice, util_math_Min.
  pose proof (len_nonneg s).
  rewrite (proj2 (Z.ltb_ge _ _)) by lia.
  replace (0 <=? B) with false by (symmetry; apply Z.leb_gt; lia).
  done.
Qed.

(** *** The client that [NewClient] makes *)

Lemma NewClient_inv (conf : ClientConfig) lg c :
  NewClient conf lg = (Some c, None) ->
  cfg c = conf /\
  writeClient c =
    {| Transport := RoundTrip {| tenantID := TenantID conf; rt := http_DefaultTransport |} |} /\
  client (api_client (readClient c)) =
    {| Transport := RoundTrip {| tenantID := TenantID conf; rt := http_DefaultTransport |} |}.
Proof.
  unfold NewClient, api_NewClient. intros H.
  destruct (WriteBaseEndpoint conf); [|discriminate].
  destruct (ReadBaseEndpoint conf); [|discriminate].
  simpl in H. destruct (url_Parse _); [|discriminate].
  by inversion H.
Qed.

(** *** Status codes and verdicts *)

Lemma is2xx_spec (statusCode : Z) :
  is2xx statusCode = true <-> 200 <= statusCode <= 299.
Proof.
  unfold is2xx. rewrite Z.eqb_eq.
  pose proof (Z.quot_rem' statusCode 100) as Hqr.
  destruct (Z_le_gt_dec 0 statusCode) as [Hpos | Hneg].
  - pose proof (Z.rem_bound_pos statusCode 100 Hpos ltac:(lia)). lia.
  - pose proof (Z.rem_bound_pos (- statusCode) 100 ltac:(lia) ltac:(lia)) as Hr.
    rewrite Z.rem_opp_l in Hr by lia. lia.
Qed.

Lemma is2xx_not_redirect (statusCode : Z) :
  is2xx statusCode = true -> redirect_status statusCode = false.
Proof.
  intros H%is2xx_spec. unfold redirect_status.
  rewrite !orb_false_iff, !Z.eqb_neq. repeat split; lia.
Qed.

Lemma classify_2xx resp :
  is2xx (StatusCode resp) = true -> classify resp = (StatusCode resp, None).
Proof. intros H. unfold classify. by rewrite H. Qed.

Lemma classify_non2xx resp :
  is2xx (StatusCode resp) = false ->
  exists err, classify resp = (StatusCode resp, Some err).
Proof.
  intros H. unfold classify. rewrite H. simpl.
  destruct (fault _); eauto.
Qed.

Lemma outcome_nil_inv r statusCode :
  outcome_of r = (statusCode, None) ->
  exists resp, r = inl resp /\ is2xx (StatusCode resp) = true /\ statusCode = StatusCode resp.
Proof.
  destruct r as [resp | err]; [|discriminate]. simpl.
  destruct (is2xx (StatusCode resp)) eqn:H2.
  - rewrite classify_2xx by done. intros [= <-]. eauto.
  - destruct (classify_non2xx resp H2) as [e ->]. discriminate.
Qed.

Lemma outcome_error r statusCode err :
  outcome_of r = (statusCode, Some err) -> is2xx statusCode = false.
Proof.
  destruct r as [resp | e]; simpl; [|by intros [= <- _]].
  destruct (is2xx (StatusCode resp)) eqn:H2.
  - by rewrite classify_2xx.
  - destruct (classify_non2xx resp H2) as [e ->]. by intros [= <- _].
Qed.

Lemma verdict_2xx req resp :
  is2xx (StatusCode resp) = true ->
  verdict req (inl resp) = (StatusCode resp, None).
Proof. apply classify_2xx. Qed.

Lemma verdict_nil_inv req r statusCode :
  verdict req r = (statusCode, None) ->
  exists resp, r = inl resp /\ is2xx (StatusCode resp) = true /\ statusCode = StatusCode resp.
Proof.
  destruct r as [resp | err]; [|discriminate].
  apply (outcome_nil_inv (inl resp)).
Qed.

(** *** One [Client.Do] *)

(** What the tenant round tripper over the default transport does with
    the request [send] hands it. *)
Lemma tenant_transport tenant req w :
  Transport
    {| Transport := RoundTrip {| tenantID := tenant; rt := http_DefaultTransport |} |}
    (http_send req) w
  = let (r, n) := DefaultTransport (on_wire tenant req) (net w) in
    (r, {| net := n; wire := wire w ++ [(on_wire tenant req, r)] |}).
Proof. reflexivity. Qed.

(** Through the tenant round tripper over the default transport, [Do] is a
    sequence of [round_trips]. *)
Lemma Client_hops_trips tenant more reqs req w :
  exists hops r n,
    Client_hops more
      {| Transport := RoundTrip {| tenantID := tenant; rt := http_DefaultTransport |} |}
      reqs req w
    = (r, {| net := n; wire := wire w ++ hops |}) /\
    round_trips tenant more reqs req hops r.
Proof.
  set (c := Build_http_Client (RoundTrip (Build_clientRoundTripper tenant http_DefaultTransport))).
  revert reqs req w. induction more as [|more IH]; intros reqs req w;
    cbn [Client_hops]; unfold bind at 1; subst c; rewrite tenant_transport;
    set (c := Build_http_Client (RoundTrip (Build_clientRoundTripper tenant http_DefaultTransport))) in *;
    destruct (DefaultTransport (on_wire tenant req) (net w)) as [[resp | err] n];
    try (eexists [_], _, n; split; [done | apply trips_error]);
    destruct (redirect_status (StatusCode resp)) eqn:Hstatus;
    try (eexists [_], _, n; split; [done | apply trips_back; by left]);
    destruct (http_redirect (reqs ++ [req]) resp) as [[next | err]|] eqn:Hnext;
    try (eexists [_], _, n; split; [done | by apply trips_refused]);
    try (eexists [_], _, n; split; [done | apply trips_back; by right]).
  - eexists [_], _, n. split; [done | by eapply trips_limit].
  - destruct (IH (reqs ++ [req]) next
                {| net := n; wire := wire w ++ [(on_wire tenant req, inl resp)] |})
      as (hops & r & n' & -> & Htrips).
    exists ((on_wire tenant req, inl resp) :: hops), r, n'. simpl.
    split; [by rewrite <- app_assoc | by eapply trips_follow].
Qed.

(** [sendWriteRequest] is [prepared], one [Client.Do], and [outcome_of]. *)
Lemma sendWriteRequest_eq cfg lg c req w :
  NewClient cfg lg = (Some c, None) ->
  sendWriteRequest c req w =
    match prepared cfg req with
    | inr err => ((0, Some err), w)
    | inl httpReq =>
      let (r, w') :=
        Client_Do
          {| Transport := RoundTrip {| tenantID := TenantID cfg; rt := http_DefaultTransport |} |}
          httpReq w in
      (outcome_of r, w')
    end.
Proof.
  intros (Hcfg & Hwc & _)%NewClient_inv.
  unfold sendWriteRequest, prepared. rewrite Hcfg, Hwc.
  destruct (proto_Marshal req) as [data | err]; [|done].
  destruct (http_NewRequest _ _ _) as [httpReq | err]; [|done].
  unfold bind at 1. destruct (Client_Do _ _ w) as [[resp | err] w']; [|done].
  unfold outcome_of, classify, is2xx, ret. by repeat case_match.
Qed.

(** The same, with the round trips of [Do] spelled out. *)
Lemma sendWriteRequest_trips cfg lg c req w :
  NewClient cfg lg = (Some c, None) ->
  match prepared cfg req with
  | inr err => sendWriteRequest c req w = ((0, Some err), w)
  | inl httpReq =>
    exists hops r n,
      sendWriteRequest c req w = (outcome_of r, {| net := n; wire := wire w ++ hops |}) /\
      round_trips (TenantID cfg) 9 [] httpReq hops r
  end.
Proof.
  intros Hnew. rewrite (sendWriteRequest_eq cfg lg) by done.
  destruct (prepared cfg req) as [httpReq | err]; [|done].
  unfold Client_Do.
  destruct (Client_hops_trips (TenantID cfg) 9 [] httpReq w) as (hops & r & n & -> & Htrips).
  by exists hops, r, n.
Qed.

(** One turn of the loop, for a batch size of at least one. *)
Lemma WriteSeries_body_eq c series w :
  1 <= WriteBatchSize (cfg c) ->
  WriteSeries_body c series w =
    let (res, w') :=
      sendWriteRequest c {| Timeseries := take (Z.to_nat (WriteBatchSize (cfg c))) series |} w in
    match res with
    | (statusCode, Some err) => (Done statusCode (Some err), w')
    | (statusCode, None) =>
      (Again (drop (Z.to_nat (WriteBatchSize (cfg c))) series) statusCode, w')
    end.
Proof.
  intros HB.
  unfold WriteSeries_body. rewrite slice_front, slice_back by done.
  unfold bind. destruct (sendWriteRequest _ _ _) as [[statusCode [err|]] w']; done.
Qed.

(** For a batch size of at least one the loop is left after at most one
    turn per remaining series, and what it did is a sequence of [calls]. *)
Lemma WriteSeries_loop_calls cfg lg c :
  NewClient cfg lg = (Some c, None) ->
  1 <= WriteBatchSize cfg ->
  forall fuel series lastStatusCode w,
    (length series < fuel)%nat ->
    exists res w' new,
      WriteSeries_loop fuel c series lastStatusCode w = (Some (Returns res), w') /\
      wire w' = wire w ++ new /\
      calls cfg series lastStatusCode new res.
Proof.
  intros Hnew HB. induction fuel as [|fuel IH]; intros series last w Hfuel; [lia|].
  cbn [WriteSeries_loop].
  destruct (decide (series = [])) as [-> | Hne].
  - exists (last, None), w, []. simpl. rewrite app_nil_r.
    split_and!; [done | done | constructor].
  - rewrite (proj2 (len_pos series) Hne). unfold bind at 1.
    destruct (NewClient_inv _ _ _ Hnew) as (Hcfg & _).
    rewrite WriteSeries_body_eq by (by rewrite Hcfg). rewrite Hcfg.
    pose proof (sendWriteRequest_trips cfg lg c
      {| Timeseries := take (Z.to_nat (WriteBatchSize cfg)) series |} w Hnew) as Hsend.
    destruct (prepared cfg _) as [httpReq | err] eqn:Hprep.
    + destruct Hsend as (hops & r & n & -> & Htrips).
      destruct (outcome_of r) as [statusCode [err|]] eqn:Hout.
      * eexists _, _, hops. split_and!; [done | done |].
        by eapply calls_failed.
      * destruct (IH (drop (Z.to_nat (WriteBatchSize cfg)) series) statusCode
                    {| net := n; wire := wire w ++ hops |})
          as (res & w' & new & Hloop & Hwire & Hcalls).
        { rewrite length_drop. destruct series; [done | simpl in *; lia]. }
        exists res, w', (hops ++ new).
        split_and!; [done | | by eapply calls_next].
        rewrite Hwire. simpl. by rewrite <- app_assoc.
    + rewrite Hsend. exists (0, Some err), w, []. rewrite app_nil_r.
      split_and!; [done | done | by eapply calls_unsent].
Qed.

Lemma WriteSeries_calls cfg lg c fuel series w :
  NewClient cfg lg = (Some c, None) ->
  1 <= WriteBatchSize cfg ->
  (length series < fuel)%nat ->
  exists res w',
    WriteSeries fuel c series w = (Some (Returns res), w') /\
    calls cfg series 0 (issued w w') res.
Proof.
  intros Hnew HB Hfuel.
  destruct (WriteSeries_loop_calls cfg lg c Hnew HB fuel series 0 w Hfuel)
    as (res & w' & new & Hloop & Hwire & Hcalls).
  exists res, w'. split; [done|].
  unfold issued. by rewrite Hwire, drop_app_length.
Qed.

Lemma prepared_body cfg req httpReq :
  prepared cfg req = inl httpReq ->
  exists data, proto_Marshal req = inl data /\ ReqBody httpReq = snappy_Encode data.
Proof.
  unfold prepared, http_NewRequest. intros H.
  destruct (proto_Marshal req) as [data|]; [|discriminate].
  destruct (url_Parse _); [|discriminate].
  exists data. split; [done|]. by inversion H.
Qed.

Lemma prepared_method cfg req httpReq :
  prepared cfg req = inl httpReq -> Method httpReq = "POST".
Proof.
  unfold prepared, http_NewRequest. intros H.
  destruct (proto_Marshal req) as [data|]; [|discriminate].
  destruct (url_Parse _); [|discriminate]. by inversion H.
Qed.

(** *** The round trips of one [Client.Do] *)

(** [send] and [RoundTrip] touch the headers only. *)
Lemma on_wire_body tenant req : ReqBody (on_wire tenant req) = ReqBody req.
Proof. unfold on_wire, stamped, http_send. by repeat case_match. Qed.

Lemma on_wire_URL tenant req : URL (on_wire tenant req) = URL req.
Proof. unfold on_wire, stamped, http_send. by repeat case_match. Qed.

(** Without user information in the URL, [send] adds nothing. *)
Lemma on_wire_plain tenant req :
  URL_User (URL req) = None -> on_wire tenant req = stamped tenant req.
Proof. intros H. unfold on_wire, http_send. by rewrite H. Qed.

Lemma head_snoc (reqs : list (Request url_URL)) req :
  head (reqs ++ [req]) = Some (default req (head reqs)).
Proof. by destruct reqs. Qed.

(** The first exchange of a [Do] carries the request it was given; when
    the answer is [final], it is the only one. *)
Lemma trips_head tenant more reqs req hops r :
  round_trips tenant more reqs req hops r ->
  exists a rest,
    hops = (on_wire tenant req, a) :: rest /\
    (final a ->
     rest = [] /\
     r = match a with
         | inl resp => inl resp
         | inr err => inr (uerr reqs req (send_error err))
         end).
Proof.
  destruct 1; eexists _, _; (split; [done|]); simpl; intros Hfinal;
    try done; congruence.
Qed.

(** An exchange of a [Do] whose answer is [final] is its last one; a
    response is then what [Do] returns, and an error of the transport comes
    back as a [*url.Error] for the method of the first request and the URL
    of the last. *)
Lemma trips_final tenant more reqs req hops r :
  round_trips tenant more reqs req hops r ->
  forall (i : nat) q a,
    hops !! i = Some (q, a) -> final a ->
    length hops = S i /\
    r = match a with
        | inl resp => inl resp
        | inr err =>
          inr (url_Error (urlErrorOp (Method (default req (head reqs))))
                 (stripPassword (URL q)) (send_error err))
        end.
Proof.
  induction 1 as [more reqs req err | more reqs req resp Hback
                 | more reqs req resp err Hstatus Hnext
                 | reqs req resp next Hstatus Hnext
                 | more reqs req resp next rest r Hstatus Hnext Htrips IH];
    intros i q a Hx Hfinal.
  - destruct i as [|i]; [|by rewrite lookup_cons, lookup_nil in Hx].
    injection Hx as <- <-. by rewrite on_wire_URL.
  - destruct i as [|i]; [|by rewrite lookup_cons, lookup_nil in Hx].
    by injection Hx as <- <-.
  - destruct i as [|i]; [|by rewrite lookup_cons, lookup_nil in Hx].
    injection Hx as <- <-. simpl in Hfinal. congruence.
  - destruct i as [|i]; [|by rewrite lookup_cons, lookup_nil in Hx].
    injection Hx as <- <-. simpl in Hfinal. congruence.
  - destruct i as [|i].
    + injection Hx as <- <-. simpl in Hfinal. congruence.
    + destruct (IH i q a Hx Hfinal) as [Hlen ->]. split; [simpl; by rewrite Hlen|].
      by rewrite head_snoc.
Qed.

(** A response that [Do] returns is the answer of its last exchange. *)
Lemma trips_result tenant more reqs req hops r resp :
  round_trips tenant more reqs req hops r ->
  r = inl resp ->
  exists q, last hops = Some (q, inl resp).
Proof.
  induction 1 as [more reqs req err | more reqs req resp0 Hback
                 | more reqs req resp0 err Hstatus Hnext
                 | reqs req resp0 next Hstatus Hnext
                 | more reqs req resp0 next rest r Hstatus Hnext Htrips IH];
    intros Hr; try discriminate.
  - injection Hr as ->. by eexists.
  - destruct (IH Hr) as [q Hlast]. exists q.
    destruct rest as [|y rest]; [done|]. by rewrite last_cons, Hlast.
Qed.

(** A [Do] sends at least one request and, with [more] redirects left to
    follow, at most [more + 1]. *)
Lemma trips_length tenant more reqs req hops r :
  round_trips tenant more reqs req hops r ->
  (1 <= length hops <= S more)%nat.
Proof. induction 1; simpl; lia. Qed.

(** *** Counting batches *)

Lemma batch_count_nil (B : Z) : 1 <= B -> batch_count B [] = 0.
Proof. intros HB. unfold batch_count, len. simpl. apply Z.div_small. lia. Qed.

Lemma batch_count_step (B : Z) series :
  1 <= B -> series ≠ [] ->
  batch_count B series = 1 + batch_count B (drop (Z.to_nat B) series).
Proof.
  intros HB Hne. unfold batch_count, len. rewrite length_drop.
  assert (0 < length series)%nat by (destruct series; [done | simpl; lia]).
  destruct (Z_lt_le_dec (Z.of_nat (length series)) B) as [Hlt | Hge].
  - replace (length series - Z.to_nat B)%nat with O by lia. simpl.
    rewrite (Z.div_small (B - 1)) by lia.
    symmetry. apply Z.div_unique with (r := Z.of_nat (length series) - 1). 
    + lia.
    + lia.
  - replace (Z.of_nat (length series) + B - 1)
      with (Z.of_nat (length series - Z.to_nat B) + B - 1 + 1 * B) by lia.
    rewrite Z.div_add by lia. lia.
Qed.

Lemma batch_count_nonneg (B : Z) series : 1 <= B -> 0 <= batch_count B series.
Proof. intros HB. unfold batch_count. apply Z.div_pos; pose proof (len_nonneg series); lia. Qed.

Lemma batch_at_0 (B : Z) series : batch_at B series 0 = take (Z.to_nat B) series.
Proof. unfold batch_at. by rewrite Nat.mul_0_l, drop_0. Qed.

Lemma batch_at_S (B : Z) series (i : nat) :
  batch_at B series (S i) = batch_at B (drop (Z.to_nat B) series) i.
Proof. unfold batch_at. by rewrite drop_drop. Qed.

(** [batch_at] as a slice expression. *)
Lemma batch_at_slice (B : Z) series (i : nat) :
  1 <= B -> Z.of_nat i * B <= len series ->
  slice series (Z.of_nat i * B) (util_math_Min (len series) ((Z.of_nat i + 1) * B))
  = Some (batch_at B series i).
Proof.
  intros HB Hi. unfold slice, util_math_Min, batch_at, len in *.
  replace (Z.to_nat (Z.of_nat i * B)) with (i * Z.to_nat B)%nat by lia.
  destruct (Z.ltb_spec (Z.of_nat (length series)) ((Z.of_nat i + 1) * B)) as [Hlt | Hge].
  - rewrite !(proj2 (Z.leb_le _ _)) by lia. simpl. f_equal.
    rewrite !take_ge; [done | rewrite length_drop; lia | rewrite length_drop; lia].
  - rewrite !(proj2 (Z.leb_le _ _)) by lia. simpl. do 2 f_equal. lia.
Qed.

(** *** What a run puts on the wire and returns *)

(** The [i]-th exchange of a run carries the request prepared for the
    [i]-th batch, with the tenant header on it. *)
Lemma run_requests cfg series lastStatusCode new res :
  run cfg series lastStatusCode new res ->
  forall (i : nat) (x : Exchange),
    new !! i = Some x ->
    exists httpReq,
      prepared cfg {| Timeseries := batch_at (WriteBatchSize cfg) series i |} = inl httpReq /\
      x.1 = on_wire (TenantID cfg) httpReq.
Proof.
  induction 1 as [last | s last err Hne Hprep | s last req r code err Hne Hprep Hv
                 | s last req r code rest res Hne Hprep Hv Hrun IH]; intros i x Hx.
  - by rewrite lookup_nil in Hx.
  - by rewrite lookup_nil in Hx.
  - destruct i as [|i]; [|by rewrite lookup_cons, lookup_nil in Hx].
    injection Hx as <-. rewrite batch_at_0. eauto.
  - destruct i as [|i].
    + injection Hx as <-. rewrite batch_at_0. eauto.
    + rewrite batch_at_S. by apply IH.
Qed.

(** A run that returns no error sent one request per batch. *)
Lemma run_count cfg series lastStatusCode new res :
  1 <= WriteBatchSize cfg ->
  run cfg series lastStatusCode new res ->
  res.2 = None ->
  len new = batch_count (WriteBatchSize cfg) series.
Proof.
  intros HB.
  induction 1 as [last | s last err Hne Hprep | s last req0 r0 code err Hne Hprep Hv
                 | s last req0 r0 code rest res Hne Hprep Hv Hrun IH]; intros Hnil.
  - by rewrite batch_count_nil.
  - discriminate.
  - discriminate.
  - rewrite batch_count_step, <- IH by done. unfold len. simpl length. lia.
Qed.

(** When every batch is answered in the 2xx class, the run returns the
    status code of the last answer, and no error. *)
Lemma run_all_2xx cfg series lastStatusCode new res :
  1 <= WriteBatchSize cfg ->
  run cfg series lastStatusCode new res ->
  (forall i : nat, Z.of_nat i < batch_count (WriteBatchSize cfg) series ->
     exists req resp, new !! i = Some (req, inl resp) /\ is2xx (StatusCode resp) = true) ->
  (new = [] /\ res = (lastStatusCode, None)) \/
  (exists req resp, last new = Some (req, inl resp) /\ res = (StatusCode resp, None)).
Proof.
  intros HB.
  induction 1 as [last0 | s last0 err Hne Hprep | s last0 req0 r0 code err Hne Hprep Hv
                 | s last0 req0 r0 code rest res Hne Hprep Hv Hrun IH]; intros Hall.
  - by left.
  - destruct (Hall O) as (req & resp & Hx & _); [|by rewrite lookup_nil in Hx].
    rewrite batch_count_step by done.
    pose proof (batch_count_nonneg (WriteBatchSize cfg)
                  (drop (Z.to_nat (WriteBatchSize cfg)) s) HB). lia.
  - destruct (Hall O) as (req & resp & Hx & H2).
    { rewrite batch_count_step by done.
      pose proof (batch_count_nonneg (WriteBatchSize cfg)
                    (drop (Z.to_nat (WriteBatchSize cfg)) s) HB). lia. }
    injection Hx as <- ->. by rewrite verdict_2xx in Hv.
  - right. destruct (verdict_nil_inv _ _ _ Hv) as (resp0 & -> & H2 & ->).
    destruct IH as [[-> ->] | (req & resp & Hlast & ->)].
    + intros i Hi. apply (Hall (S i)). rewrite batch_count_step by done. lia.
    + by exists (on_wire (TenantID cfg) req0), resp0.
    + exists req, resp. split; [|done].
      destruct rest as [|y rest]; [done|]. by rewrite last_cons, Hlast.
Qed.

(** Every exchange of a run belongs to a batch that exists. *)
Lemma run_bound cfg series lastStatusCode new res :
  run cfg series lastStatusCode new res ->
  forall i : nat, (i < length new)%nat ->
    (i * Z.to_nat (WriteBatchSize cfg) < length series)%nat.
Proof.
  induction 1 as [last0 | s last0 err0 Hne Hprep | s last0 req0 r0 code err0 Hne Hprep Hv
                 | s last0 req0 r0 code rest res Hne Hprep Hv Hrun IH]; intros i Hi.
  - simpl in Hi. lia.
  - simpl in Hi. lia.
  - simpl in Hi. replace i with O by lia. destruct s; [done | simpl; lia].
  - destruct i as [|i]; [destruct s; [done | simpl; lia]|].
    simpl in Hi. specialize (IH i ltac:(lia)). rewrite length_drop in IH. simpl. lia.
Qed.

Lemma prepared_unbuilt cfg req err :
  proto_Marshal req = inr err \/
  (exists data, proto_Marshal req = inl data /\
     http_NewRequest "POST" (URLValue_String (WriteBaseEndpoint cfg) +:+ "/api/v1/push")
       (snappy_Encode data) = inr err) ->
  prepared cfg req = inr err.
Proof.
  unfold prepared. intros [-> | (data & -> & ->)]; done.
Qed.

Lemma batch_count_cover (B : Z) series :
  1 <= B -> (length series <= Z.to_nat (batch_count B series) * Z.to_nat B)%nat.
Proof.
  intros HB. pose proof (batch_count_nonneg B series HB) as Hn.
  unfold batch_count, len in *.
  pose proof (Z.mul_succ_div_gt (Z.of_nat (length series) + B - 1) B ltac:(lia)).
  nia.
Qed.

(** *** What the calls of a run put on the wire and return *)

(** When no answer is a redirect, every [Do] is one exchange. *)
Lemma calls_plain cfg series lastStatusCode new res :
  calls cfg series lastStatusCode new res ->
  no_redirects new ->
  run cfg series lastStatusCode new res.
Proof.
  induction 1 as [last | s last err Hne Hprep | s last req hops r code err Hne Hprep Htrips Hout
                 | s last req hops r code rest res Hne Hprep Htrips Hout Hcalls IH];
    intros Hplain.
  - constructor.
  - by constructor.
  - destruct (trips_head _ _ _ _ _ _ Htrips) as (a & tl & -> & Hone).
    destruct Hone as [-> ->]; [by inversion Hplain|].
    apply run_failed; [done | done |]. by destruct a.
  - destruct (trips_head _ _ _ _ _ _ Htrips) as (a & tl & -> & Hone).
    apply Forall_app in Hplain as [Hhops Hrest].
    destruct Hone as [-> ->]; [by inversion Hhops|].
    eapply run_next; [done | done | by destruct a | by apply IH].
Qed.

(** The first exchange of a run carries the request prepared for the first
    batch. *)
Lemma calls_head cfg series lastStatusCode q a rest res :
  calls cfg series lastStatusCode ((q, a) :: rest) res ->
  series ≠ [] /\
  exists req,
    prepared cfg {| Timeseries := take (Z.to_nat (WriteBatchSize cfg)) series |} = inl req /\
    q = on_wire (TenantID cfg) req.
Proof.
  inversion 1 as [| | s last req hops r code err Hne Hprep Htrips Hout
                 | s last req hops r code tl res0 Hne Hprep Htrips Hout Hcalls];
    (split; [done|]); exists req; (split; [done|]);
    destruct (trips_head _ _ _ _ _ _ Htrips) as (a0 & tl0 & Hhops & _);
    by simplify_eq/=.
Qed.

(** After a first exchange answered in the 2xx class the run goes on with
    the next batch. *)
Lemma calls_step cfg series lastStatusCode q resp rest res :
  calls cfg series lastStatusCode ((q, inl resp) :: rest) res ->
  is2xx (StatusCode resp) = true ->
  calls cfg (drop (Z.to_nat (WriteBatchSize cfg)) series) (StatusCode resp) rest res.
Proof.
  intros Hcalls H2. pose proof (is2xx_not_redirect _ H2) as Hfinal.
  inversion Hcalls as [| | s last req hops r code err Hne Hprep Htrips Hout
                      | s last req hops r code tl res0 Hne Hprep Htrips Hout Hnext];
    destruct (trips_head _ _ _ _ _ _ Htrips) as (a0 & tl0 & Hhops & Hone);
    simplify_eq/=; destruct (Hone Hfinal) as [-> ->]; simpl in Hout;
    rewrite classify_2xx in Hout by done; [discriminate|].
  by injection Hout as <-.
Qed.

Lemma calls_nil cfg lastStatusCode new res :
  calls cfg [] lastStatusCode new res -> new = [] /\ res = (lastStatusCode, None).
Proof. by inversion 1. Qed.

(** After [k] exchanges answered in the 2xx class the run goes on from
    batch [k], with the status code of the last of them. *)
Lemma calls_after_2xx cfg series lastStatusCode new res :
  calls cfg series lastStatusCode new res ->
  forall k : nat,
    (forall j : nat, (j < k)%nat ->
       exists q resp, new !! j = Some (q, inl resp) /\ is2xx (StatusCode resp) = true) ->
    exists code,
      calls cfg (drop (k * Z.to_nat (WriteBatchSize cfg)) series) code (drop k new) res /\
      (k <= length new)%nat /\
      match k with
      | O => code = lastStatusCode
      | S j => exists q resp, new !! j = Some (q, inl resp) /\ code = StatusCode resp
      end.
Proof.
  intros Hcalls. induction k as [|k IH]; intros Hbefore.
  - exists lastStatusCode. split_and!; [done | lia | done].
  - destruct IH as (code & Hrest & Hlen & _); [intros j Hj; apply Hbefore; lia|].
    destruct (Hbefore k) as (q & resp & Hx & H2); [lia|].
    pose proof (drop_S new (q, inl resp) k Hx) as Hdrop.
    unfold Exchange in *. rewrite Hdrop in Hrest.
    apply calls_step in Hrest; [|done]. rewrite drop_drop in Hrest.
    exists (StatusCode resp). split_and!.
    + by replace (S k * Z.to_nat (WriteBatchSize cfg))%nat
        with (k * Z.to_nat (WriteBatchSize cfg) + Z.to_nat (WriteBatchSize cfg))%nat by lia.
    + by apply lookup_lt_Some in Hx.
    + by exists q, resp.
Qed.

(** An exchange that comes after exchanges answered in the 2xx class only
    carries the request prepared for the batch of its index. *)
Lemma calls_request cfg series lastStatusCode new res :
  calls cfg series lastStatusCode new res ->
  forall (k : nat) q a,
    new !! k = Some (q, a) ->
    (forall j : nat, (j < k)%nat ->
       exists q resp, new !! j = Some (q, inl resp) /\ is2xx (StatusCode resp) = true) ->
    (k * Z.to_nat (WriteBatchSize cfg) < length series)%nat /\
    exists req,
      prepared cfg {| Timeseries := batch_at (WriteBatchSize cfg) series k |} = inl req /\
      q = on_wire (TenantID cfg) req.
Proof.
  intros Hcalls k q a Hx Hbefore.
  destruct (calls_after_2xx _ _ _ _ _ Hcalls k Hbefore) as (code & Hrest & _).
  pose proof (drop_S new (q, a) k Hx) as Hdrop.
  unfold Exchange in *. rewrite Hdrop in Hrest.
  destruct (calls_head _ _ _ _ _ _ _ Hrest) as (Hne & req & Hprep & ->).
  split; [|by exists req].
  destruct (decide (k * Z.to_nat (WriteBatchSize cfg) < length series)%nat); [done|].
  destruct Hne. apply drop_ge. lia.
Qed.

(** When every batch is answered in the 2xx class at the exchange of its
    index, the run sent one request per batch and returns the status code
    of the last answer, and no error. *)
Lemma calls_all_2xx cfg series lastStatusCode new res :
  1 <= WriteBatchSize cfg ->
  calls cfg series lastStatusCode new res ->
  (forall i : nat, Z.of_nat i < batch_count (WriteBatchSize cfg) series ->
     exists req resp, new !! i = Some (req, inl resp) /\ is2xx (StatusCode resp) = true) ->
  len new = batch_count (WriteBatchSize cfg) series /\
  ((new = [] /\ res = (lastStatusCode, None)) \/
   (exists req resp, last new = Some (req, inl resp) /\ res = (StatusCode resp, None))).
Proof.
  intros HB Hcalls Hall.
  pose proof (batch_count_nonneg _ series HB) as Hn.
  destruct (calls_after_2xx _ _ _ _ _ Hcalls
              (Z.to_nat (batch_count (WriteBatchSize cfg) series)))
    as (code & Hrest & Hlen & Hcode); [intros j Hj; apply Hall; lia|].
  rewrite drop_ge in Hrest by (by apply batch_count_cover).
  apply calls_nil in Hrest as [Hdrop ->].
  assert (length new = Z.to_nat (batch_count (WriteBatchSize cfg) series)) as Hcount.
  { apply (f_equal length) in Hdrop. rewrite length_drop in Hdrop. simpl in Hdrop. lia. }
  split; [unfold len; lia|].
  destruct (Z.to_nat (batch_count (WriteBatchSize cfg) series)) as [|j] eqn:Hj.
  - left. subst code. split; [by apply nil_length_inv | done].
  - right. destruct Hcode as (q & resp & Hx & ->). exists q, resp. split; [|done].
    rewrite last_lookup, Hcount. done.
Qed.

(** A batch that is reached and cannot be prepared ends the run with status
    code 0, its own error, and nothing sent for it. *)
Lemma calls_unprepared cfg series lastStatusCode new res :
  calls cfg series lastStatusCode new res ->
  forall (k : nat) err,
    (k * Z.to_nat (WriteBatchSize cfg) < length series)%nat ->
    (forall j : nat, (j < k)%nat ->
       exists req resp, new !! j = Some (req, inl resp) /\ is2xx (StatusCode resp) = true) ->
    prepared cfg {| Timeseries := batch_at (WriteBatchSize cfg) series k |} = inr err ->
    length new = k /\ res = (0, Some err).
Proof.
  intros Hcalls k err Hk Hbefore Hfail.
  destruct (calls_after_2xx _ _ _ _ _ Hcalls k Hbefore) as (code & Hrest & Hlen & _).
  unfold batch_at in Hfail.
  inversion Hrest as [last Hnil | s last err0 Hne Hprep
                     | s last req hops r code0 err0 Hne Hprep Htrips Hout
                     | s last req hops r code0 tl res0 Hne Hprep Htrips Hout Hnext Hnew].
  - apply (f_equal length) in Hnil. rewrite length_drop in Hnil. simpl in Hnil. lia.
  - rewrite Hfail in Hprep. injection Hprep as <-. split; [|done].
    match goal with H : [] = drop k new |- _ =>
      apply (f_equal length) in H; rewrite length_drop in H; simpl in H end.
    lia.
  - by rewrite Hfail in Hprep.
  - by rewrite Hfail in Hprep.
Qed.

(** An exchange whose answer is [final] and is not a response of the 2xx
    class is the last one of the run; the run returns the status code and
    the error made of a response, and status code 0 with the [*url.Error]
    of the POST for an error of the transport. *)
Lemma calls_final cfg series lastStatusCode new res :
  calls cfg series lastStatusCode new res ->
  forall (i : nat) q a,
    new !! i = Some (q, a) ->
    final a ->
    match a with inl resp => is2xx (StatusCode resp) = false | inr _ => True end ->
    length new = S i /\
    res = match a with
          | inl resp => classify resp
          | inr err =>
            (0, Some (url_Error (urlErrorOp "POST") (stripPassword (URL q))
                        (send_error err)))
          end.
Proof.
  induction 1 as [last | s last err Hne Hprep | s last req hops r code err Hne Hprep Htrips Hout
                 | s last req hops r code rest res Hne Hprep Htrips Hout Hcalls IH];
    intros i q a Hx Hfinal Hbad.
  - by rewrite lookup_nil in Hx.
  - by rewrite lookup_nil in Hx.
  - destruct (trips_final _ _ _ _ _ _ Htrips i q a Hx Hfinal) as [Hlen ->].
    split; [done|]. simpl in Hout. rewrite (prepared_method _ _ _ Hprep) in Hout.
    by destruct a.
  - destruct (decide (i < length hops)%nat) as [Hi | Hi].
    + rewrite lookup_app_l in Hx by done.
      destruct (trips_final _ _ _ _ _ _ Htrips i q a Hx Hfinal) as [_ ->].
      destruct a as [resp | e]; [|discriminate]. simpl in Hout.
      destruct (classify_non2xx resp Hbad) as [e He]. congruence.
    + unfold Exchange in *. rewrite lookup_app_r in Hx by lia.
      destruct (IH _ q a Hx Hfinal Hbad) as [Hlen ->]. split; [|done].
      rewrite length_app, Hlen. lia.
Qed.

(** The status code of a run is of the 2xx class exactly when the run sent
    something and returns no error. *)
Lemma calls_status cfg series lastStatusCode new res :
  calls cfg series lastStatusCode new res ->
  (res.2 = None -> (series = [] /\ res.1 = lastStatusCode) \/ is2xx res.1 = true) /\
  (is_Some res.2 -> is2xx res.1 = false).
Proof.
  induction 1 as [last | s last err Hne Hprep | s last req hops r code err Hne Hprep Htrips Hout
                 | s last req hops r code rest res Hne Hprep Htrips Hout Hcalls IH]; simpl.
  - split; [by left | by intros [? ?]].
  - split; [done | done].
  - split; [done | intros _]. by eapply outcome_error.
  - destruct IH as [IHnil IHerr]. split; [|done].
    intros Hnil. right. destruct (IHnil Hnil) as [[_ ->] | H2]; [|done].
    by destruct (outcome_nil_inv _ _ Hout) as (resp & _ & H2 & ->).
Qed.

(** A run sends at most ten requests per batch. *)
Lemma calls_at_most cfg series lastStatusCode new res :
  1 <= WriteBatchSize cfg ->
  calls cfg series lastStatusCode new res ->
  len new <= 10 * batch_count (WriteBatchSize cfg) series.
Proof.
  intros HB.
  induction 1 as [last | s last err Hne Hprep | s last req hops r code err Hne Hprep Htrips Hout
                 | s last req hops r code rest res Hne Hprep Htrips Hout Hcalls IH].
  - by rewrite batch_count_nil.
  - pose proof (batch_count_nonneg (WriteBatchSize cfg) s HB). unfold len. simpl. lia.
  - rewrite batch_count_step by done.
    pose proof (batch_count_nonneg (WriteBatchSize cfg)
                  (drop (Z.to_nat (WriteBatchSize cfg)) s) HB).
    pose proof (trips_length _ _ _ _ _ _ Htrips). unfold len. lia.
  - rewrite batch_count_step by done.
    pose proof (trips_length _ _ _ _ _ _ Htrips). unfold len in *.
    rewrite length_app. lia.
Qed.

(** *** The text of an error *)

Lemma append_assoc (a b t : string) : (a +:+ b) +:+ t = a +:+ (b +:+ t).
Proof.
  induction a as [|x a IH]; [done|].
  change (String x ((a +:+ b) +:+ t) = String x (a +:+ (b +:+ t))). by rewrite IH.
Qed.

Lemma prefix_append (p t : string) : String.prefix p (p +:+ t) = true.
Proof.
  induction p as [|a p IH]; simpl; [by destruct t|].
  by destruct (Ascii.ascii_dec a a).
Qed.

Lemma embeds_here (p t : string) : embeds p (p +:+ t) = true.
Proof.
  assert (forall s, embeds p s = true <-> String.prefix p s = true \/
            match s with EmptyString => False | String _ rest => embeds p rest = true end)
    as Hunfold.
  { intros [|x s]; simpl; rewrite orb_true_iff; intuition discriminate || auto. }
  apply Hunfold. left. apply prefix_append.
Qed.

Lemma embeds_later (p a t : string) : embeds p t = true -> embeds p (a +:+ t) = true.
Proof.
  intros H. induction a as [|x a IH]; simpl; [done|].
  rewrite IH. apply orb_true_r.
Qed.

Lemma limited_read (r : Reader) :
  (io_ReadAll (io_LimitReader r maxErrMsgLen)).1 = take 256 (content r).
Proof.
  unfold io_ReadAll, io_LimitReader, maxErrMsgLen, len.
  destruct (Z.ltb_spec (Z.of_nat (length (content r))) 256); simpl; [|done].
  symmetry. apply take_ge. lia.
Qed.

(** *** The write path *)




(** C10. On the empty sequence [WriteSeries] sends nothing and returns
    status code 0 with a nil error, whatever the client and however few turns
    the loop is given. *)
Theorem WriteSeries_empty c fuel w :
  WriteSeries fuel c [] w = (Some (Returns (0, None)), w) /\
  issued w (WriteSeries fuel c [] w).2 = [].
Proof.
  assert (WriteSeries fuel c [] w = (Some (Returns (0, None)), w)) as H
    by (by destruct fuel).
  split; [done|]. rewrite H. unfold issued. simpl. apply drop_all.
Qed.



(** *** Termination of the batching loop *)

Lemma WriteSeries_loop_total c :
  1 <= WriteBatchSize (cfg c) ->
  forall fuel series lastStatusCode w,
    (length series < fuel)%nat ->
    exists res w', WriteSeries_loop fuel c series lastStatusCode w = (Some (Returns res), w').
Proof.
  intros HB. induction fuel as [|fuel IH]; intros series last w Hfuel; [lia|].
  cbn [WriteSeries_loop].
  destruct (decide (series = [])) as [-> | Hne]; [by eexists _, _|].
  rewrite (proj2 (len_pos series) Hne). unfold bind at 1.
  rewrite WriteSeries_body_eq by done.
  destruct (sendWriteRequest _ _ _) as [[statusCode [err|]] w1]; [by eexists _, _|].
  apply IH. rewrite length_drop. destruct series; [done | simpl in *; lia].
Qed.

Lemma WriteSeries_body_zero c series w :
  WriteBatchSize (cfg c) = 0 ->
  WriteSeries_body c series w =
    let (res, w') := sendWriteRequest c {| Timeseries := [] |} w in
    match res with
    | (statusCode, Some err) => (Done statusCode (Some err), w')
    | (statusCode, None) => (Again series statusCode, w')
    end.
Proof.
  intros HB. unfold WriteSeries_body, util_math_Min, slice. rewrite HB.
  pose proof (len_nonneg series) as Hlen.
  destruct (Z.ltb_spec (len series) 0) as [?|_]; [lia|].
  rewrite (proj2 (Z.leb_le 0 (len series))) by done. simpl.
  rewrite Z.sub_0_r. unfold len. rewrite Nat2Z.id, firstn_all, Z.leb_refl.
  change (Z.to_nat (0 - 0)) with O. change (Z.to_nat 0) with O.
  rewrite take_0, drop_0.
  unfold bind. destruct (sendWriteRequest _ _ _) as [[statusCode [err|]] w']; done.
Qed.

Lemma WriteSeries_body_negative c series w :
  WriteBatchSize (cfg c) < 0 -> series ≠ [] ->
  WriteSeries_body c series w = (Panicked "slice bounds out of range", w).
Proof.
  intros HB Hne. unfold WriteSeries_body. by rewrite slice_negative.
Qed.

(** C9. For a batch size [B >= 1] every turn of the loop cuts at least one
    series off the front of a non-empty sequence, so a turn that goes on
    leaves strictly fewer series than it found, and [WriteSeries] returns on
    every sequence, within one turn per series.  For [B <= 0] and a non-empty
    sequence no turn removes a series: with [B = 0] a turn sends an empty
    batch and either goes on with the sequence as it was or stops on an
    error, with [B < 0] the turn panics in the slice expression before
    anything is sent; so the loop is never left with a nil error. *)
Theorem WriteSeries_progress c series w :
  (1 <= WriteBatchSize (cfg c) ->
   (series ≠ [] ->
    exists rest,
      slice series (util_math_Min (len series) (WriteBatchSize (cfg c))) (len series)
      = Some rest /\
      (length rest < length series)%nat) /\
   (forall rest statusCode w1,
      series ≠ [] ->
      WriteSeries_body c series w = (Again rest statusCode, w1) ->
      (length rest < length series)%nat) /\
   (forall fuel, (length series < fuel)%nat ->
      exists res w', WriteSeries fuel c series w = (Some (Returns res), w'))) /\
  (WriteBatchSize (cfg c) <= 0 ->
   series ≠ [] ->
   (forall t w1,
      WriteSeries_body c series w = (t, w1) ->
      match t with
      | Again rest _ => rest = series /\ WriteBatchSize (cfg c) = 0
      | Done _ err => is_Some err /\ WriteBatchSize (cfg c) = 0
      | Panicked _ => WriteBatchSize (cfg c) < 0 /\ w1 = w
      end) /\
   (forall fuel statusCode w',
      WriteSeries fuel c series w ≠ (Some (Returns (statusCode, None)), w'))).
Proof.
  split.
  - intros HB. split_and!.
    + intros Hne. eexists. split; [by apply slice_back|].
      rewrite length_drop. destruct series; [done | simpl; lia].
    + intros rest statusCode w1 Hne. rewrite WriteSeries_body_eq by done.
      destruct (sendWriteRequest _ _ _) as [[code [err|]] w2]; [done|].
      intros [= <- _ _]. rewrite length_drop.
      destruct series; [done | simpl; lia].
    + intros fuel Hfuel. by apply WriteSeries_loop_total.
  - intros HB Hne.
    assert (forall w0 t w1,
      WriteSeries_body c series w0 = (t, w1) ->
      match t with
      | Again rest _ => rest = series /\ WriteBatchSize (cfg c) = 0
      | Done _ err => is_Some err /\ WriteBatchSize (cfg c) = 0
      | Panicked _ => WriteBatchSize (cfg c) < 0 /\ w1 = w0
      end) as Hturn.
    { intros w0 t w1. destruct (decide (WriteBatchSize (cfg c) = 0)) as [H0 | Hneg].
      - rewrite WriteSeries_body_zero by done.
        destruct (sendWriteRequest _ _ _) as [[code [err|]] w2]; intros [= <- <-]; eauto.
      - rewrite WriteSeries_body_negative by (done || lia).
        intros [= <- <-]. split; [lia | done]. }
    split; [by apply Hturn|].
    intros fuel. unfold WriteSeries. generalize 0 at 1. revert w.
    induction fuel as [|fuel IH]; intros w last statusCode w';
      cbn [WriteSeries_loop]; rewrite (proj2 (len_pos series) Hne); [done|].
    unfold bind at 1.
    destruct (WriteSeries_body c series w) as [t w1] eqn:Hbody.
    specialize (Hturn _ _ _ Hbody).
    destruct t as [rest code | code err | msg].
    + destruct Hturn as [-> _]. apply IH.
    + destruct Hturn as [[e ->] _]. done.
    + done.
Qed.

(** *** Client construction *)

(** C4. With a nil write URL, or a nil read URL, [NewClient] returns no
    client and an error that names the endpoint that is missing. *)
Theorem NewClient_requires_endpoints cfg lg :
  WriteBaseEndpoint cfg = None \/ ReadBaseEndpoint cfg = None ->
  exists msg,
    NewClient cfg lg = (None, Some (errors_New msg)) /\
    (WriteBaseEndpoint cfg = None -> msg = "the write endpoint has not been set") /\
    (WriteBaseEndpoint cfg ≠ None -> msg = "the read endpoint has not been set").
Proof.
  intros H. unfold NewClient.
  destruct (WriteBaseEndpoint cfg) as [wu|].
  - destruct H as [H | H]; [discriminate|]. rewrite H.
    eexists. split_and!; [done | discriminate | done].
  - eexists. split_and!; done.
Qed.

(** *** The read path *)

(** C3. When the API hands back a value and no error, [QueryRange] returns a
    matrix exactly when that value is a [Matrix], and then returns it as it
    is; a value that declares another type, or that fails the type
    assertion, makes it return the nil matrix and an error. *)
Theorem QueryRange_matrix_only c query start end_ step w value w' :
  API_QueryRange (readClient c) query
    {| Start := start; End_ := end_; Step := step |} w = ((Some value, None), w') ->
  (Value_Type value ≠ ValMatrix ->
   QueryRange c query start end_ step w =
     (Returns ([], Some (errors_New "was expecting to get a Matrix")), w')) /\
  (Value_Type value = ValMatrix -> (assert_Matrix value).2 = false ->
   QueryRange c query start end_ step w =
     (Returns ([], Some (errors_New "failed to cast type to Matrix")), w')) /\
  (forall m,
     QueryRange c query start end_ step w = (Returns (m, None), w') <->
     value = Value_Matrix m).
Proof.
  intros Hapi. unfold QueryRange, bind. rewrite Hapi. unfold ret.
  split_and!.
  - intros Hty. by rewrite decide_True.
  - intros Hty Hcast. rewrite decide_False by (by intros ?).
    destruct (assert_Matrix value) as [matrix ok]. simpl in Hcast. by subst ok.
  - intros m. destruct value as [m0 | v | sc | st | declared repr]; simpl;
      try (split; intros [=]; done).
    + split; [by intros [= ->] | by intros [= ->]].
    + destruct (decide (declared ≠ ValMatrix)); split; intros [=]; done.
Qed.

(** *** The tenant header *)

Lemma stamped_tenant (tenant : string) (req : Request url_URL) :
  Header_Get (ReqHeader (stamped tenant req)) "X-Scope-OrgID" = tenant.
Proof. unfold Header_Get, stamped, Header_Set. simpl. by rewrite lookup_insert_eq. Qed.

Lemma tenant_wire_refl tenant w : tenant_wire tenant w w.
Proof. exists []. by rewrite app_nil_r. Qed.

Lemma tenant_wire_trans tenant w1 w2 w3 :
  tenant_wire tenant w1 w2 -> tenant_wire tenant w2 w3 -> tenant_wire tenant w1 w3.
Proof.
  intros (n1 & H1 & F1) (n2 & H2 & F2). exists (n1 ++ n2).
  split; [by rewrite H2, H1, app_assoc | by apply Forall_app].
Qed.

Lemma tenant_wire_issued tenant w w' x :
  tenant_wire tenant w w' -> x ∈ issued w w' ->
  Header_Get (ReqHeader x.1) "X-Scope-OrgID" = tenant.
Proof.
  intros (new & Hwire & Hall) Hx. unfold issued in Hx.
  rewrite Hwire, drop_app_length in Hx.
  by apply (proj1 (Forall_forall _ _) Hall).
Qed.

Lemma trips_tenant tenant more reqs req hops r :
  round_trips tenant more reqs req hops r ->
  Forall (fun x : Exchange => Header_Get (ReqHeader x.1) "X-Scope-OrgID" = tenant) hops.
Proof.
  induction 1; repeat constructor; try apply stamped_tenant. done.
Qed.

Lemma Client_Do_tenant tenant req w :
  tenant_wire tenant w
    (Client_Do {| Transport := RoundTrip {| tenantID := tenant; rt := http_DefaultTransport |} |}
       req w).2.
Proof.
  unfold Client_Do.
  destruct (Client_hops_trips tenant 9 [] req w) as (hops & r & n & -> & Htrips).
  exists hops. split; [done|]. by eapply trips_tenant.
Qed.

Lemma api_run_tenant {A : Type} tenant (p : ApiCall url_URL A) w :
  tenant_wire tenant w
    (api_run {| Transport := RoundTrip {| tenantID := tenant; rt := http_DefaultTransport |} |}
       p w).2.
Proof.
  revert w. induction p as [a | req k IH]; intros w; simpl.
  - apply tenant_wire_refl.
  - unfold bind. pose proof (Client_Do_tenant tenant req w) as Hdo.
    destruct (Client_Do _ req w) as [r w1]. simpl in Hdo.
    eapply tenant_wire_trans; [done | apply IH].
Qed.

Lemma sendWriteRequest_tenant cfg lg c req w :
  NewClient cfg lg = (Some c, None) ->
  tenant_wire (TenantID cfg) w (sendWriteRequest c req w).2.
Proof.
  intros Hnew. rewrite (sendWriteRequest_eq cfg lg) by done.
  destruct (prepared cfg req) as [httpReq | err]; [|apply tenant_wire_refl].
  cbv zeta. pose proof (Client_Do_tenant (TenantID cfg) httpReq w) as Hdo.
  by destruct (Client_Do _ httpReq w) as [r w'].
Qed.

Lemma WriteSeries_body_tenant cfg lg c series w :
  NewClient cfg lg = (Some c, None) ->
  tenant_wire (TenantID cfg) w (WriteSeries_body c series w).2.
Proof.
  intros Hnew. unfold WriteSeries_body.
  destruct (slice series 0 _) as [batch|]; [|apply tenant_wire_refl].
  destruct (slice series _ _) as [rest|]; [|apply tenant_wire_refl].
  unfold bind.
  pose proof (sendWriteRequest_tenant cfg lg c {| Timeseries := batch |} w Hnew) as Hsend.
  by destruct (sendWriteRequest _ _ _) as [[statusCode [err|]] w1].
Qed.

Lemma WriteSeries_loop_tenant cfg lg c :
  NewClient cfg lg = (Some c, None) ->
  forall fuel series lastStatusCode w,
    tenant_wire (TenantID cfg) w (WriteSeries_loop fuel c series lastStatusCode w).2.
Proof.
  intros Hnew. induction fuel as [|fuel IH]; intros series last w; cbn [WriteSeries_loop];
    destruct (0 <? len series); try apply tenant_wire_refl.
  unfold bind at 1.
  pose proof (WriteSeries_body_tenant cfg lg c series w Hnew) as Hbody.
  destruct (WriteSeries_body c series w) as [[rest code | code err | msg] w1]; simpl in Hbody;
    [|done..].
  eapply tenant_wire_trans; [done | apply IH].
Qed.

(** C6. [RoundTrip] hands the wrapped transport the request with the header
    [X-Scope-OrgID] set to the tenant and nothing else changed, and returns
    what the wrapped transport returns.  Hence every request that a client
    made by [NewClient] puts on the wire, for a write or for a range query,
    carries the tenant of its configuration. *)
Theorem tenant_header :
  (forall (self : clientRoundTripper) (req : Request url_URL),
     exists req',
       RoundTrip self req = rt self req' /\
       Header_Get (ReqHeader req') "X-Scope-OrgID" = tenantID self /\
       ReqHeader req' !! CanonicalMIMEHeaderKey "X-Scope-OrgID" = Some [tenantID self] /\
       Method req' = Method req /\
       URL req' = URL req /\
       ReqBody req' = ReqBody req /\
       forall key, key ≠ CanonicalMIMEHeaderKey "X-Scope-OrgID" ->
         ReqHeader req' !! key = ReqHeader req !! key) /\
  (forall cfg lg c,
     NewClient cfg lg = (Some c, None) ->
     (forall fuel series w x,
        x ∈ issued w (WriteSeries fuel c series w).2 ->
        Header_Get (ReqHeader x.1) "X-Scope-OrgID" = TenantID cfg) /\
     (forall query start end_ step w x,
        x ∈ issued w (QueryRange c query start end_ step w).2 ->
        Header_Get (ReqHeader x.1) "X-Scope-OrgID" = TenantID cfg)).
Proof.
  split.
  - intros self req. exists (stamped (tenantID self) req).
    split_and!; try done.
    + apply stamped_tenant.
    + unfold stamped, Header_Set. simpl. apply lookup_insert_eq.
    + intros key Hkey. unfold stamped, Header_Set. simpl. by apply lookup_insert_ne.
  - intros cfg lg c Hnew. split.
    + intros fuel series w x. apply tenant_wire_issued.
      by apply (WriteSeries_loop_tenant cfg lg).
    + intros query start end_ step w x. apply tenant_wire_issued.
      destruct (NewClient_inv _ _ _ Hnew) as (_ & _ & Hrc).
      unfold QueryRange, bind, API_QueryRange. rewrite Hrc.
      pose proof (api_run_tenant (TenantID cfg)
        (v1_httpAPI_QueryRange (endpoint (api_client (readClient c))) query
           {| Start := start; End_ := end_; Step := step |}) w) as Hrun.
      destruct (api_run _ _ w) as [[value err] w1]. simpl in Hrun.
      unfold ret. by repeat case_match.
Qed.

End Properties.

(** ** Further properties of the client *)

Section MoreProperties.

Context {L : Libraries}.

Implicit Types (cfg : ClientConfig) (c : Client) (w : World).
Implicit Types (series : list TimeSeries) (new : list Exchange).

(** *** More on runs *)

(** Every exchange of a run but the last was answered in the 2xx class. *)
Lemma run_before_last cfg series lastStatusCode new res :
  run cfg series lastStatusCode new res ->
  forall i : nat, (S i < length new)%nat ->
    exists req resp, new !! i = Some (req, inl resp) /\ is2xx (StatusCode resp) = true.
Proof.
  induction 1 as [last0 | s last0 err0 Hne Hprep | s last0 req0 r0 code err0 Hne Hprep Hv
                 | s last0 req0 r0 code rest res Hne Hprep Hv Hrun IH]; intros i Hi;
    try (simpl in Hi; lia).
  destruct i as [|i].
  - destruct (verdict_nil_inv _ _ _ Hv) as (resp & -> & H2 & _). by eexists _, _.
  - apply IH. simpl in Hi. lia.
Qed.

(** In a run that returns no error the last one was, too. *)
Lemma run_nil_2xx cfg series lastStatusCode new res :
  run cfg series lastStatusCode new res ->
  res.2 = None ->
  forall (i : nat) x, new !! i = Some x ->
    exists resp, x.2 = inl resp /\ is2xx (StatusCode resp) = true.
Proof.
  induction 1 as [last0 | s last0 err0 Hne Hprep | s last0 req0 r0 code err0 Hne Hprep Hv
                 | s last0 req0 r0 code rest res Hne Hprep Hv Hrun IH]; intros Hnil i x Hx;
    simpl in Hnil; try discriminate.
  destruct i as [|i]; [|by eapply IH].
  injection Hx as <-. destruct (verdict_nil_inv _ _ _ Hv) as (resp & -> & H2 & _).
  by exists resp.
Qed.

(** A run never sends more requests than there are batches. *)
Lemma run_at_most cfg series lastStatusCode new res :
  1 <= WriteBatchSize cfg ->
  run cfg series lastStatusCode new res ->
  len new <= batch_count (WriteBatchSize cfg) series.
Proof.
  intros HB.
  induction 1 as [last0 | s last0 err0 Hne Hprep | s last0 req0 r0 code err0 Hne Hprep Hv
                 | s last0 req0 r0 code rest res Hne Hprep Hv Hrun IH].
  - by rewrite batch_count_nil.
  - by apply batch_count_nonneg.
  - rewrite batch_count_step by done.
    pose proof (batch_count_nonneg (WriteBatchSize cfg)
                  (drop (Z.to_nat (WriteBatchSize cfg)) s) HB).
    unfold len. simpl. lia.
  - rewrite batch_count_step by done. unfold len in *. simpl length. lia.
Qed.

Lemma batch_at_length (B : Z) series (i : nat) :
  length (batch_at B series i)
  = (Z.to_nat B `min` (length series - i * Z.to_nat B))%nat.
Proof. unfold batch_at. by rewrite length_take, length_drop. Qed.

(** The first [n] batches, put end to end, are the first [n * B] series. *)
Lemma concat_batches (B : Z) series (n : nat) :
  concat (batch_at B series <$> seq 0 n) = take (n * Z.to_nat B) series.
Proof.
  induction n as [|n IH]; [done|].
  rewrite seq_S, fmap_app, concat_app, IH. simpl. rewrite app_nil_r.
  unfold batch_at. rewrite take_take_drop. f_equal. lia.
Qed.

(** *** The write path, further *)

(** For a batch size [B >= 1] and a call in which no request is answered
    with a redirect status, [WriteSeries] returns a nil error exactly when
    every batch was sent and answered in the 2xx class.  Whatever it
    returns, it has then sent at most one request per batch, and every
    request before the last one was answered in the 2xx class: the batches
    before a failure have been written. *)
Theorem WriteSeries_nil_error_iff cfg lg c fuel series w :
  NewClient cfg lg = (Some c, None) ->
  1 <= WriteBatchSize cfg ->
  (length series < fuel)%nat ->
  exists statusCode err w',
    WriteSeries fuel c series w = (Some (Returns (statusCode, err)), w') /\
    (no_redirects (issued w w') ->
     len (issued w w') <= batch_count (WriteBatchSize cfg) series /\
     (forall i : nat, (S i < length (issued w w'))%nat ->
        exists req resp,
          issued w w' !! i = Some (req, inl resp) /\ is2xx (StatusCode resp) = true) /\
     (err = None <->
      len (issued w w') = batch_count (WriteBatchSize cfg) series /\
      forall x, x ∈ issued w w' ->
        exists resp, x.2 = inl resp /\ is2xx (StatusCode resp) = true)).
Proof.
  intros Hnew HB Hfuel.
  destruct (WriteSeries_calls cfg lg c fuel series w Hnew HB Hfuel)
    as ([statusCode err] & w' & Hcall & Hcalls).
  exists statusCode, err, w'. split; [done|]. intros Hplain.
  pose proof (calls_plain _ _ _ _ _ Hcalls Hplain) as Hrun.
  split_and!; [by eapply run_at_most | by eapply run_before_last |].
  split.
  - intros ->. split; [by eapply run_count|].
    intros x (i & Hx)%list_elem_of_lookup_1. by eapply (run_nil_2xx _ _ _ _ _ Hrun).
  - intros [Hcount Hall].
    assert (forall i : nat, Z.of_nat i < batch_count (WriteBatchSize cfg) series ->
              exists req resp,
                issued w w' !! i = Some (req, inl resp) /\ is2xx (StatusCode resp) = true)
      as Hevery.
    { intros i Hi. destruct (lookup_lt_is_Some_2 (issued w w') i) as [[req r] Hx].
      { unfold len in Hcount. lia. }
      destruct (Hall (req, r)) as (resp & Hr & H2); [by eapply list_elem_of_lookup_2|].
      simpl in Hr. subst r. by exists req, resp. }
    by destruct (run_all_2xx _ _ _ _ _ HB Hrun Hevery)
      as [[_ [= _ ->]] | (? & ? & _ & [= _ ->])].
Qed.

(** For a batch size [B >= 1] and a non-empty sequence, the status code that
    [WriteSeries] returns is between 200 and 299 exactly when the error is
    nil; with an error it is 0 or the code of an answer outside that class. *)
Theorem WriteSeries_status_and_error cfg lg c fuel series w :
  NewClient cfg lg = (Some c, None) ->
  1 <= WriteBatchSize cfg ->
  (length series < fuel)%nat ->
  series ≠ [] ->
  exists statusCode err w',
    WriteSeries fuel c series w = (Some (Returns (statusCode, err)), w') /\
    (err = None <-> 200 <= statusCode <= 299).
Proof.
  intros Hnew HB Hfuel Hne.
  destruct (WriteSeries_calls cfg lg c fuel series w Hnew HB Hfuel)
    as ([statusCode err] & w' & Hcall & Hcalls).
  exists statusCode, err, w'. split; [done|].
  destruct (calls_status _ _ _ _ _ Hcalls) as [Hnil Herr]. simpl in *.
  rewrite <- is2xx_spec. split.
  - intros ->. by destruct (Hnil eq_refl) as [[? _] | ?].
  - intros H2. destruct err as [e|]; [|done].
    rewrite Herr in H2 by by eexists. discriminate.
Qed.

(** For a batch size [B >= 1] and a call in which no request is answered
    with a redirect status, the batches that the requests of the call
    carry, put end to end in the order sent, are a prefix of the input; when
    the call returns a nil error they are the whole input: no series is
    lost, sent twice or out of order. *)
Theorem WriteSeries_batches_concat cfg lg c fuel series w :
  NewClient cfg lg = (Some c, None) ->
  1 <= WriteBatchSize cfg ->
  (length series < fuel)%nat ->
  exists statusCode err w' batches,
    WriteSeries fuel c series w = (Some (Returns (statusCode, err)), w') /\
    (no_redirects (issued w w') ->
     Forall2 (fun batch (x : Exchange) =>
                exists data,
                  proto_Marshal {| Timeseries := batch |} = inl data /\
                  ReqBody x.1 = snappy_Encode data)
             batches (issued w w') /\
     concat batches `prefix_of` series /\
     (err = None -> concat batches = series)).
Proof.
  intros Hnew HB Hfuel.
  destruct (WriteSeries_calls cfg lg c fuel series w Hnew HB Hfuel)
    as ([statusCode err] & w' & Hcall & Hcalls).
  exists statusCode, err, w',
    (batch_at (WriteBatchSize cfg) series <$> seq 0 (length (issued w w'))).
  split; [done|]. intros Hplain.
  pose proof (calls_plain _ _ _ _ _ Hcalls Hplain) as Hrun.
  split_and!.
  - apply Forall2_same_length_lookup_2; [by rewrite length_fmap, length_seq|].
    intros i batch x Hbatch Hx.
    rewrite list_lookup_fmap in Hbatch.
    destruct (seq 0 (length (issued w w')) !! i) as [j|] eqn:Hj; [|done].
    apply lookup_seq in Hj as [-> _]. injection Hbatch as <-.
    destruct (run_requests _ _ _ _ _ Hrun i _ Hx) as (httpReq & Hprep & Hreq).
    destruct (prepared_body _ _ _ Hprep) as (data & Hdata & Hbody).
    exists data. split; [done|]. by rewrite Hreq, on_wire_body, Hbody.
  - rewrite concat_batches. apply prefix_take.
  - intros ->. rewrite concat_batches. apply take_ge.
    pose proof (run_count _ _ _ _ _ HB Hrun eq_refl) as Hcount.
    pose proof (batch_count_cover _ series HB). unfold len in Hcount. lia.
Qed.

(** For a batch size [B >= 1] and a call in which no request is answered
    with a redirect status, every request of the call carries at least one
    series and at most [B]: the request of batch [i] carries
    [min(B, N - i*B)] of them, and every request followed by another carries
    exactly [B]. *)
Theorem WriteSeries_batch_sizes cfg lg c fuel series w :
  NewClient cfg lg = (Some c, None) ->
  1 <= WriteBatchSize cfg ->
  (length series < fuel)%nat ->
  exists statusCode err w',
    WriteSeries fuel c series w = (Some (Returns (statusCode, err)), w') /\
    (no_redirects (issued w w') ->
     forall (i : nat) req r,
       issued w w' !! i = Some (req, r) ->
       exists batch data,
         proto_Marshal {| Timeseries := batch |} = inl data /\
         ReqBody req = snappy_Encode data /\
         len batch = Z.min (WriteBatchSize cfg) (len series - Z.of_nat i * WriteBatchSize cfg) /\
         1 <= len batch <= WriteBatchSize cfg /\
         ((S i < length (issued w w'))%nat -> len batch = WriteBatchSize cfg)).
Proof.
  intros Hnew HB Hfuel.
  destruct (WriteSeries_calls cfg lg c fuel series w Hnew HB Hfuel)
    as ([statusCode err] & w' & Hcall & Hcalls).
  exists statusCode, err, w'. split; [done|]. intros Hplain i req r Hx.
  pose proof (calls_plain _ _ _ _ _ Hcalls Hplain) as Hrun.
  destruct (run_requests _ _ _ _ _ Hrun i _ Hx) as (httpReq & Hprep & Hreq).
  destruct (prepared_body _ _ _ Hprep) as (data & Hdata & Hbody).
  exists (batch_at (WriteBatchSize cfg) series i), data.
  split_and!; [done | simpl in Hreq; by rewrite Hreq, on_wire_body, Hbody | | | |].
  - unfold len. rewrite batch_at_length.
    pose proof (run_bound _ _ _ _ _ Hrun i (lookup_lt_Some _ _ _ Hx)). nia.
  - unfold len. rewrite batch_at_length.
    pose proof (run_bound _ _ _ _ _ Hrun i (lookup_lt_Some _ _ _ Hx)). nia.
  - unfold len. rewrite batch_at_length. lia.
  - intros Hmore. unfold len. rewrite batch_at_length.
    pose proof (run_bound _ _ _ _ _ Hrun (S i) Hmore). nia.
Qed.

(** *** One write request *)

(** [sendWriteRequest] puts at most ten requests on the wire, the first and
    the redirects that the HTTP client follows, and one only when no answer
    has a redirect status; it returns a nil error exactly when the last of
    them was answered with a status code between 200 and 299, which it then
    returns; and it sends nothing exactly when the request could not be
    prepared, returning status code 0. *)
Theorem sendWriteRequest_outcome cfg lg c req w :
  NewClient cfg lg = (Some c, None) ->
  exists statusCode err w',
    sendWriteRequest c req w = ((statusCode, err), w') /\
    (length (issued w w') <= 10)%nat /\
    (no_redirects (issued w w') -> (length (issued w w') <= 1)%nat) /\
    (err = None <->
     exists httpReq resp,
       last (issued w w') = Some (httpReq, inl resp) /\
       200 <= StatusCode resp <= 299 /\ statusCode = StatusCode resp) /\
    (issued w w' = [] <-> exists e, prepared cfg req = inr e) /\
    (issued w w' = [] -> statusCode = 0 /\ is_Some err).
Proof.
  intros Hnew. pose proof (sendWriteRequest_trips cfg lg c req w Hnew) as Hsend.
  destruct (prepared cfg req) as [httpReq | e].
  - destruct Hsend as (hops & r & n & -> & Htrips).
    destruct (outcome_of r) as [statusCode err] eqn:Hout.
    eexists statusCode, err, _. split; [done|].
    unfold issued. simpl. rewrite drop_app_length.
    pose proof (trips_length _ _ _ _ _ _ Htrips) as Hlen.
    split_and!; [lia | | | |].
    + intros Hplain. destruct (trips_head _ _ _ _ _ _ Htrips) as (a & rest & -> & Hone).
      destruct Hone as [-> _]; [by inversion Hplain | done].
    + split.
      * intros ->. destruct (outcome_nil_inv _ _ Hout) as (resp & -> & H2 & ->).
        destruct (trips_result _ _ _ _ _ _ resp Htrips eq_refl) as [q Hlast].
        exists q, resp. by rewrite <- is2xx_spec.
      * intros (q & resp & Hlast & H2%is2xx_spec & _).
        rewrite last_lookup in Hlast.
        destruct (trips_final _ _ _ _ _ _ Htrips _ q (inl resp) Hlast) as [_ ->];
          [by apply is2xx_not_redirect|].
        simpl in Hout. rewrite classify_2xx in Hout by done. by injection Hout as _ <-.
    + split; [|by intros [? ?]]. intros ->. simpl in Hlen. lia.
    + intros ->. simpl in Hlen. lia.
  - exists 0, (Some e), w. split; [done|].
    unfold issued. rewrite drop_all.
    split_and!; [simpl; lia | simpl; lia | | | by eauto].
    + split; [done | by intros (? & ? & ? & _)].
    + split; [by eauto | done].
Qed.

(** Five headers set one after the other under different keys. *)
Lemma write_headers_dom (k1 k2 k3 k4 k5 : string) (v1 v2 v3 v4 v5 : list string) :
  dom (<[k5 := v5]> (<[k4 := v4]> (<[k3 := v3]> (<[k2 := v2]> (<[k1 := v1]> (∅ : Header))))))
  = list_to_set [k1; k2; k3; k4; k5].
Proof.
  rewrite !dom_insert_L, dom_empty_L. simpl. apply set_eq. intros k.
  rewrite !elem_of_union, !elem_of_singleton, elem_of_empty. tauto.
Qed.

Lemma write_headers_lookup (k1 k2 k3 k4 k5 : string) (v1 v2 v3 v4 v5 : list string) :
  NoDup [k1; k2; k3; k4; k5] ->
  let h := <[k5 := v5]> (<[k4 := v4]> (<[k3 := v3]> (<[k2 := v2]> (<[k1 := v1]> (∅ : Header))))) in
  h !! k1 = Some v1 /\ h !! k2 = Some v2 /\ h !! k3 = Some v3 /\
  h !! k4 = Some v4 /\ h !! k5 = Some v5.
Proof.
  rewrite !NoDup_cons, !not_elem_of_cons.
  intros ((H12 & H13 & H14 & H15 & _) & (H23 & H24 & H25 & _) & (H34 & H35 & _) &
          (H45 & _) & _).
  simpl. split_and!.
  - by rewrite !lookup_insert_ne, lookup_insert_eq by done.
  - by rewrite !lookup_insert_ne, lookup_insert_eq by done.
  - by rewrite !lookup_insert_ne, lookup_insert_eq by done.
  - by rewrite lookup_insert_ne, lookup_insert_eq by done.
  - by rewrite lookup_insert_eq.
Qed.

(** The calls of [Client.Do] on the write path, one after the other, are
    single exchanges when no answer has a redirect status. *)
Lemma write_calls_plain cfg (groups : list (list Exchange)) :
  Forall (write_call cfg) groups ->
  no_redirects (concat groups) ->
  Forall (write_exchange cfg) (concat groups).
Proof.
  induction 1 as [|hops groups (req & httpReq & r & Hprep & Htrips) Hrest IH]; simpl;
    [done|].
  intros [Hhops Hplain]%Forall_app. apply Forall_app. split; [|by apply IH].
  destruct (trips_head _ _ _ _ _ _ Htrips) as (a & rest & -> & Hone).
  destruct Hone as [-> _]; [by inversion Hhops|].
  apply Forall_singleton. by exists req, httpReq.
Qed.

Lemma WriteSeries_loop_write_calls cfg lg c :
  NewClient cfg lg = (Some c, None) ->
  forall fuel series lastStatusCode w,
    wire_calls cfg w (WriteSeries_loop fuel c series lastStatusCode w).2.
Proof.
  intros Hnew.
  assert (forall w0, wire_calls cfg w0 w0) as Hrefl
    by (intros w0; exists []; by rewrite app_nil_r).
  assert (forall req0 w0, wire_calls cfg w0 (sendWriteRequest c req0 w0).2) as Hsend.
  { intros req0 w0. pose proof (sendWriteRequest_trips cfg lg c req0 w0 Hnew) as Hsend.
    destruct (prepared cfg req0) as [httpReq | err] eqn:Hprep.
    - destruct Hsend as (hops & r & n & -> & Htrips). exists [hops]. simpl.
      rewrite app_nil_r. split; [done|]. apply Forall_singleton. by exists req0, httpReq, r.
    - rewrite Hsend. apply Hrefl. }
  induction fuel as [|fuel IH]; intros series last w; cbn [WriteSeries_loop];
    destruct (0 <? len series); try apply Hrefl.
  unfold bind at 1.
  assert (wire_calls cfg w (WriteSeries_body c series w).2) as Hbody.
  { unfold WriteSeries_body.
    destruct (slice series 0 _) as [batch|]; [|apply Hrefl].
    destruct (slice series _ _) as [rest|]; [|apply Hrefl].
    unfold bind. specialize (Hsend {| Timeseries := batch |} w).
    by destruct (sendWriteRequest _ _ _) as [[statusCode [err|]] w1]. }
  destruct (WriteSeries_body c series w) as [[rest code | code err | msg] w1];
    simpl in Hbody; [|done..].
  destruct Hbody as (g1 & H1 & F1).
  destruct (IH rest code w1) as (g2 & H2 & F2).
  exists (g1 ++ g2). split; [by rewrite H2, H1, concat_app, app_assoc | by apply Forall_app].
Qed.

(** When the address of the write endpoint carries no user information and
    no request of the call is answered with a redirect status, every request
    that [WriteSeries] puts on the wire, whatever the batch size, is a POST
    to the write endpoint followed by [/api/v1/push], whose body is the
    compressed serialization of a write request and whose headers are
    exactly the five of the write path; where the canonical forms of the
    five names differ, each holds the single value the code gives it. *)
Theorem WriteSeries_request_shape cfg lg c fuel series w x :
  NewClient cfg lg = (Some c, None) ->
  (forall u, url_Parse (URLValue_String (WriteBaseEndpoint cfg) +:+ "/api/v1/push") = inl u ->
     URL_User u = None) ->
  no_redirects (issued w (WriteSeries fuel c series w).2) ->
  x ∈ issued w (WriteSeries fuel c series w).2 ->
  Method x.1 = "POST" /\
  url_Parse (URLValue_String (WriteBaseEndpoint cfg) +:+ "/api/v1/push") = inl (URL x.1) /\
  (exists req data, proto_Marshal req = inl data /\ ReqBody x.1 = snappy_Encode data) /\
  dom (ReqHeader x.1) = list_to_set (CanonicalMIMEHeaderKey <$> write_header_names) /\
  (NoDup (CanonicalMIMEHeaderKey <$> write_header_names) ->
   ReqHeader x.1 !! CanonicalMIMEHeaderKey "Content-Encoding" = Some ["snappy"] /\
   ReqHeader x.1 !! CanonicalMIMEHeaderKey "Content-Type" = Some ["application/x-protobuf"] /\
   ReqHeader x.1 !! CanonicalMIMEHeaderKey "User-Agent" = Some ["mimir-continuous-test"] /\
   ReqHeader x.1 !! CanonicalMIMEHeaderKey "X-Prometheus-Remote-Write-Version" = Some ["0.1.0"] /\
   ReqHeader x.1 !! CanonicalMIMEHeaderKey "X-Scope-OrgID" = Some [TenantID cfg]).
Proof.
  intros Hnew Huser Hplain Hx.
  assert (write_exchange cfg x) as (req & httpReq & Hprep & Hreq).
  { destruct (WriteSeries_loop_write_calls cfg lg c Hnew fuel series 0 w)
      as (groups & Hwire & Hall).
    unfold issued, WriteSeries in Hx, Hplain.
    rewrite Hwire, drop_app_length in Hx, Hplain.
    by apply (proj1 (Forall_forall _ _) (write_calls_plain _ _ Hall Hplain)). }
  unfold prepared, http_NewRequest in Hprep.
  destruct (proto_Marshal req) as [data|] eqn:Hdata; [|discriminate].
  destruct (url_Parse _) as [u|] eqn:Hurl; [|discriminate].
  injection Hprep as <-. rewrite on_wire_plain in Hreq by (simpl; by apply Huser).
  rewrite Hreq. simpl.
  split_and!; [done | done | by eexists _, _ | |].
  - apply write_headers_dom.
  - intros Hkeys. exact (write_headers_lookup _ _ _ _ _ _ _ _ _ _ Hkeys).
Qed.

(** *** Batch sizes that are not positive, and endpoints that do not parse *)

(** A [Do] whose first answer is [final] is that one exchange. *)
Lemma Client_Do_final tenant req w a n :
  DefaultTransport (on_wire tenant req) (net w) = (a, n) ->
  final a ->
  Client_Do
    {| Transport := RoundTrip {| tenantID := tenant; rt := http_DefaultTransport |} |} req w
  = (match a with inl resp => inl resp | inr err => inr (uerr [] req (send_error err)) end,
     {| net := n; wire := wire w ++ [(on_wire tenant req, a)] |}).
Proof.
  intros Hnet Hfinal. unfold Client_Do. cbn [Client_hops]. unfold bind at 1.
  rewrite tenant_transport, Hnet. destruct a as [resp | err]; [|done].
  simpl in Hfinal. by rewrite Hfinal.
Qed.

(** With a batch size of 0 and a non-empty sequence, as long as the network
    answers in the 2xx class, [WriteSeries] is never done: after any number
    of turns it has sent that many requests, each one the request prepared
    for the empty batch as it reaches the transport, and has not returned. *)
Theorem WriteSeries_zero_batch_spins cfg lg c series (steady : Net -> Prop) httpReq :
  NewClient cfg lg = (Some c, None) ->
  WriteBatchSize cfg = 0 ->
  series ≠ [] ->
  prepared cfg {| Timeseries := [] |} = inl httpReq ->
  (forall req n, steady n ->
     exists resp n',
       DefaultTransport req n = (inl resp, n') /\
       is2xx (StatusCode resp) = true /\ steady n') ->
  forall fuel w,
    steady (net w) ->
    exists w',
      WriteSeries fuel c series w = (None, w') /\
      length (issued w w') = fuel /\
      forall x, x ∈ issued w w' ->
        x.1 = on_wire (TenantID cfg) httpReq /\
        ReqBody x.1 = ReqBody httpReq /\ URL x.1 = URL httpReq.
Proof.
  intros Hnew HB Hne Hprep Hnet fuel. unfold WriteSeries. generalize 0 at 1.
  destruct (NewClient_inv _ _ _ Hnew) as (Hcfg & _).
  induction fuel as [|fuel IH]; intros last w Hw; cbn [WriteSeries_loop];
    rewrite (proj2 (len_pos series) Hne).
  - exists w. unfold issued. rewrite drop_all. split_and!; [done | done |].
    intros x Hx. by apply elem_of_nil in Hx.
  - unfold bind at 1. rewrite WriteSeries_body_zero by (by rewrite Hcfg).
    rewrite (sendWriteRequest_eq cfg lg), Hprep by done. cbv zeta.
    destruct (Hnet (on_wire (TenantID cfg) httpReq) (net w) Hw)
      as (resp & n' & Hanswer & H2 & Hn').
    rewrite (Client_Do_final _ _ _ _ _ Hanswer) by (by apply is2xx_not_redirect).
    simpl outcome_of. rewrite classify_2xx by done.
    destruct (IH (StatusCode resp)
                {| net := n'; wire := wire w ++ [(on_wire (TenantID cfg) httpReq, inl resp)] |}
                Hn') as (w' & Hloop & Hlen & Hall).
    exists w'. split; [done|].
    assert (issued w w' =
            (on_wire (TenantID cfg) httpReq, inl resp) ::
            issued {| net := n'; wire := wire w ++ [(on_wire (TenantID cfg) httpReq, inl resp)] |} w')
      as ->.
    { pose proof (WriteSeries_loop_tenant cfg lg c Hnew fuel series (StatusCode resp)
        {| net := n'; wire := wire w ++ [(on_wire (TenantID cfg) httpReq, inl resp)] |})
        as (new & Hwire & _).
      rewrite Hloop in Hwire. simpl in Hwire. unfold issued. simpl.
      rewrite Hwire, drop_app_length, <- app_assoc, drop_app_length. done. }
    split; [simpl; by rewrite Hlen|].
    intros x [-> | Hx]%elem_of_cons; [|by apply Hall].
    cbn [fst]. by rewrite on_wire_body, on_wire_URL.
Qed.

(** A write endpoint that does not parse once [/api/v1/push] is appended is
    not noticed by [NewClient]; then every call of [WriteSeries] on a
    non-empty sequence (with a batch size that is not negative) sends
    nothing and returns status code 0 with an error, in its first turn. *)
Theorem WriteSeries_bad_write_endpoint cfg lg c fuel series w e :
  NewClient cfg lg = (Some c, None) ->
  0 <= WriteBatchSize cfg ->
  series ≠ [] ->
  url_Parse (URLValue_String (WriteBaseEndpoint cfg) +:+ "/api/v1/push") = inr e ->
  exists err,
    WriteSeries (S fuel) c series w = (Some (Returns (0, Some err)), w) /\
    issued w w = [].
Proof.
  intros Hnew HB Hne Hurl. destruct (NewClient_inv _ _ _ Hnew) as (Hcfg & _).
  assert (forall req, exists err, prepared cfg req = inr err) as Hprep.
  { intros req. unfold prepared, http_NewRequest. rewrite Hurl.
    destruct (proto_Marshal req); eauto. }
  unfold WriteSeries, issued. rewrite drop_all. cbn [WriteSeries_loop].
  rewrite (proj2 (len_pos series) Hne). unfold bind at 1.
  destruct (decide (WriteBatchSize cfg = 0)) as [H0 | Hpos].
  - rewrite WriteSeries_body_zero by (by rewrite Hcfg).
    rewrite (sendWriteRequest_eq cfg lg) by done.
    destruct (Hprep {| Timeseries := [] |}) as [err ->]. by exists err.
  - rewrite WriteSeries_body_eq by (rewrite Hcfg; lia).
    rewrite (sendWriteRequest_eq cfg lg) by done.
    match goal with
    | |- context [prepared cfg ?r] => destruct (Hprep r) as [err ->]
    end.
    by exists err.
Qed.

(** *** The round tripper, further *)

(** [RoundTrip] replaces whatever the request already holds under the tenant
    header, so a caller cannot pass another tenant through it; and of two
    round trippers wrapped one around the other, the inner one decides: the
    outer tenant never reaches the transport. *)
Theorem RoundTrip_overrides (self : clientRoundTripper) (req : Request url_URL)
    (outer value : string) :
  RoundTrip self (with_Header (fun h => Header_Set h "X-Scope-OrgID" value) req)
  = RoundTrip self req /\
  RoundTrip self (with_Header (fun h => Header_Add h "X-Scope-OrgID" value) req)
  = RoundTrip self req /\
  RoundTrip {| tenantID := outer; rt := RoundTrip self |} req = RoundTrip self req.
Proof.
  unfold RoundTrip, with_Header, Header_Set, Header_Add. simpl.
  split_and!; by rewrite insert_insert_eq.
Qed.

(** *** Construction and the read path, further *)

(** [NewClient] returns a client or an error, never both and never
    neither.  It returns a client exactly when both endpoints are set and the
    read address parses; the client keeps the configuration and the logger
    and reads and writes through one and the same transport.  When only the
    read address fails to parse, the error wraps the parse error. *)
Theorem NewClient_outcome (conf : ClientConfig) lg :
  match NewClient conf lg with
  | (Some c, None) =>
    (exists wu ru,
       WriteBaseEndpoint conf = Some wu /\ ReadBaseEndpoint conf = Some ru /\
       url_Parse (URL_String ru) = inl (endpoint (api_client (readClient c)))) /\
    cfg c = conf /\ logger c = lg /\
    Transport (writeClient c) = Transport (client (api_client (readClient c)))
  | (None, Some e) =>
    WriteBaseEndpoint conf = None \/ ReadBaseEndpoint conf = None \/
    exists ru parseErr,
      ReadBaseEndpoint conf = Some ru /\
      url_Parse (URL_String ru) = inr parseErr /\
      e = errors_Wrap parseErr "failed to create read client" /\
      Error e = "failed to create read client: " +:+ Error parseErr
  | _ => False
  end.
Proof.
  unfold NewClient, api_NewClient.
  destruct (WriteBaseEndpoint conf) as [wu|]; [|by left].
  destruct (ReadBaseEndpoint conf) as [ru|]; [|by right; left].
  simpl. destruct (url_Parse (URL_String ru)) as [u | parseErr] eqn:Hparse.
  - simpl. split_and!; [by exists wu, ru | done..].
  - right; right. by exists ru, parseErr.
Qed.

(** [QueryRange] leaves the world as the API call left it.  An error of the
    API is passed on as it is, with the nil matrix, whatever value came with
    it; an error is never returned together with a matrix that is not nil;
    the call panics exactly when the API returns neither a value nor an
    error; and a value of one of the library's own types never fails the
    type assertion. *)
Theorem QueryRange_outcomes c query start end_ step w :
  let api := API_QueryRange (readClient c) query
               {| Start := start; End_ := end_; Step := step |} w in
  let res := QueryRange c query start end_ step w in
  res.2 = api.2 /\
  (forall e, api.1.2 = Some e -> res.1 = Returns ([], Some e)) /\
  (forall msg, res.1 = Panics msg <->
     api.1 = (None, None) /\ msg = "invalid memory address or nil pointer dereference") /\
  (forall m e, res.1 = Returns (m, Some e) -> m = []) /\
  (forall v, api.1 = (Some v, None) ->
     (forall declared repr, v ≠ Value_other declared repr) ->
     res.1 ≠ Returns ([], Some (errors_New "failed to cast type to Matrix"))).
Proof.
  intros api res. subst api res. unfold QueryRange, bind.
  destruct (API_QueryRange _ _ _ w) as [[value err] w1]. simpl.
  destruct err as [e|].
  - split_and!; try done.
    + by intros ? [= ->].
    + intros msg. split; [done | by intros [[=] _]].
    + by intros m e' [= <- _].
  - destruct value as [value|].
    + destruct (decide (Value_Type value ≠ ValMatrix)) as [Hty | Hty].
      * split_and!; try done.
        -- intros msg. split; [done | by intros [[=] _]].
        -- by intros m e' [= <- _].
      * destruct value as [m0 | v | sc | st | declared repr]; simpl in *;
          try (by destruct Hty).
        -- split_and!; try done.
           intros msg. split; [done | by intros [[=] _]].
        -- split_and!; try done.
           ++ intros msg. split; [done | by intros [[=] _]].
           ++ by intros m e' [= <- _].
           ++ intros v [= <-] Hlib. by destruct (Hlib declared repr).
    + split_and!; try done.
      intros msg. split; [by intros [= <-] | by intros [_ ->]].
Qed.

End MoreProperties.

Section FlagProperties.

Context {L : Libraries} {F : FlagPackage}.

(** When [RegisterFlags] returns, the tenant is [anonymous], the batch size
    1000 and the timeouts 5 s and 30 s, whatever the configuration held
    before, and the two endpoints are as they were.  So a configuration
    whose endpoints were not set is refused by [NewClient]; and a client
    made from the registered configuration sends, for [N] series, at most
    ten requests for each of the [ceil(N/1000)] batches before
    [WriteSeries] returns, and at most one for each when no request is
    answered with a redirect status. *)
Theorem RegisterFlags_defaults (conf conf' : ClientConfig) (f f' : flag_FlagSet) lg :
  RegisterFlags conf f = Returns (conf', f') ->
  (TenantID conf' = "anonymous" /\
   WriteBatchSize conf' = 1000 /\
   WriteTimeout conf' = 5000000000 /\
   ReadTimeout conf' = 30000000000 /\
   WriteBaseEndpoint conf' = WriteBaseEndpoint conf /\
   ReadBaseEndpoint conf' = ReadBaseEndpoint conf) /\
  (WriteBaseEndpoint conf = None \/ ReadBaseEndpoint conf = None ->
   exists msg, NewClient conf' lg = (None, Some (errors_New msg))) /\
  (forall c, NewClient conf' lg = (Some c, None) ->
     forall fuel series w, (length series < fuel)%nat ->
       exists res w',
         WriteSeries fuel c series w = (Some (Returns res), w') /\
         len (issued w w') <= 10 * ((len series + 999) / 1000) /\
         (no_redirects (issued w w') ->
          len (issued w w') <= (len series + 999) / 1000)).
Proof.
  unfold RegisterFlags, and_then. intros Hreg.
  repeat match type of Hreg with
         | match ?o with Returns _ => _ | Panics _ => _ end = _ =>
           destruct o; [|discriminate]
         end.
  injection Hreg as <- _.
  assert (forall A B : Prop, A -> (A -> B) -> A /\ B) as Hboth by tauto.
  apply Hboth; [by split_and!|]. simpl. intros (Htenant & HB & _ & _ & Hw & Hr).
  split.
  - intros Hunset. unfold NewClient. simpl.
    destruct (WriteBaseEndpoint conf) as [wu|]; [|by eexists].
    destruct Hunset as [? | ->]; [done | by eexists].
  - intros c Hnew fuel series w Hfuel.
    destruct (WriteSeries_calls _ lg c fuel series w Hnew ltac:(simpl; lia) Hfuel)
      as (res & w' & Hcall & Hcalls).
    exists res, w'. split; [done|].
    replace (len series + 999) with (len series + 1000 - 1) by lia. split.
    + pose proof (fun HB1 => calls_at_most _ _ _ _ _ HB1 Hcalls) as Hmost.
      unfold batch_count in Hmost. simpl in Hmost. apply Hmost. lia.
    + intros Hplain. apply calls_plain in Hcalls; [|done].
      pose proof (fun HB1 => run_at_most _ _ _ _ _ HB1 Hcalls) as Hmost.
      unfold batch_count in Hmost. simpl in Hmost. apply Hmost. lia.
Qed.

End FlagProperties.

(** ** The release script *)

Lemma skip_append (p t : string) : ReleaseDocs.skip (String.length p) (p +:+ t) = t.
Proof. induction p as [|a p IH]; [by destruct t | done]. Qed.

Lemma prefix_inv (p s : string) :
  String.prefix p s = true -> exists t, s = p +:+ t.
Proof.
  revert s. induction p as [|a p IH]; intros s; [intros _; by exists s|].
  destruct s as [|b s]; simpl; [done|].
  destruct (Ascii.ascii_dec a b) as [<- | _]; [|done].
  intros [t ->]%IH. by exists t.
Qed.

Lemma append_length (p t : string) :
  String.length (p +:+ t) = (String.length p + String.length t)%nat.
Proof. induction p as [|a p IH]; simpl; [done | by rewrite IH]. Qed.

Lemma embeds_false_inv (p s : string) :
  embeds p s = false ->
  String.prefix p s = false /\
  match s with EmptyString => True | String _ rest => embeds p rest = false end.
Proof. destruct s; simpl; intros H%orb_false_iff; tauto. Qed.

Lemma remove_first_leading (p t : string) : ReleaseDocs.remove_first p (p +:+ t) = t.
Proof.
  assert (forall s, ReleaseDocs.remove_first p s =
                    if String.prefix p s then ReleaseDocs.skip (String.length p) s
                    else match s with
                         | EmptyString => EmptyString
                         | String a s => String a (ReleaseDocs.remove_first p s)
                         end) as Hunfold by (by intros []).
  by rewrite Hunfold, prefix_append, skip_append.
Qed.

Lemma remove_first_absent (p s : string) :
  embeds p s = false -> ReleaseDocs.remove_first p s = s.
Proof.
  induction s as [|a s IH]; intros [Hp Hrest]%embeds_false_inv.
  - cbn [ReleaseDocs.remove_first]. by rewrite Hp.
  - cbn [ReleaseDocs.remove_first]. rewrite Hp. by rewrite IH.
Qed.

Lemma remove_first_length (p s : string) :
  embeds p s = true ->
  (String.length (ReleaseDocs.remove_first p s) + String.length p = String.length s)%nat.
Proof.
  induction s as [|a s IH]; intros Hin.
  - destruct p; [done | simpl in Hin; discriminate].
  - cbn [ReleaseDocs.remove_first]. destruct (String.prefix p (String a s)) eqn:Hp.
    + destruct (prefix_inv _ _ Hp) as [t Ht]. rewrite Ht, skip_append, append_length. lia.
    + assert (embeds p s = true) as Hrest.
      { change (String.prefix p (String a s) || embeds p s = true) in Hin.
        by rewrite Hp in Hin. }
      simpl. rewrite <- (IH Hrest). lia.
Qed.


(** The script pushes only when [NO_DRY_RUN] is [t], [1] or [true]: then the
    last step runs [git push] of [HEAD] to the release branch on the website
    remote; with any other value, with the empty value or without the
    variable it prints what it did not run.  With other than two arguments
    the script exits with status 1 before any step. *)
Theorem release_push_guarded (env : gmap string string) (toplevel : string)
    (args : list string) :
  match ReleaseDocs.setup env toplevel args with
  | inr status => length args ≠ 2%nat /\ status = 1
  | inl s =>
    length args = 2%nat /\
    ((exists argv, ReleaseDocs.push s = ReleaseDocs.Run argv) <->
     env !! "NO_DRY_RUN" = Some "t" \/ env !! "NO_DRY_RUN" = Some "1" \/
     env !! "NO_DRY_RUN" = Some "true") /\
    (forall argv, ReleaseDocs.push s = ReleaseDocs.Run argv ->
       argv = ["git"; "push"; ReleaseDocs.WEBSITE_REMOTE s;
               "HEAD:" +:+ ReleaseDocs.WEBSITE_BRANCH s]) /\
    (forall line, ReleaseDocs.push s = ReleaseDocs.Echo line ->
       line = "Not running " +:+ ReleaseDocs.dquote +:+ "git push " +:+
              ReleaseDocs.WEBSITE_REMOTE s +:+ " HEAD:" +:+ ReleaseDocs.WEBSITE_BRANCH s +:+
              ReleaseDocs.dquote +:+ " as the NO_DRY_RUN environment variable is not 'true'")
  end.
Proof.
  destruct args as [|dir [|tag [|extra args]]]; try (split; [simpl; lia | done]).
  cbn [ReleaseDocs.setup]. split; [done|].
  unfold ReleaseDocs.push, ReleaseDocs.wet_run.
  cbn [ReleaseDocs.NO_DRY_RUN ReleaseDocs.WEBSITE_REMOTE ReleaseDocs.WEBSITE_BRANCH].
  set (remote := ReleaseDocs.or_default (env !! "WEBSITE_REMOTE") "origin").
  set (branch := ReleaseDocs.or_default (env !! "WEBSITE_BRANCH") _).
  set (flag := ReleaseDocs.or_default (env !! "NO_DRY_RUN") "0").
  assert (String.eqb flag "t" || String.eqb flag "1" || String.eqb flag "true" = true <->
          env !! "NO_DRY_RUN" = Some "t" \/ env !! "NO_DRY_RUN" = Some "1" \/
          env !! "NO_DRY_RUN" = Some "true") as Hflag.
  { rewrite !orb_true_iff, !String.eqb_eq. subst flag.
    destruct (env !! "NO_DRY_RUN") as [[|a v]|]; simpl.
    - split; [intros [[|]|]; done | intros [|[|]]; done].
    - generalize (String a v). intros s0.
      split; [intros [[->| ->]| ->]; auto |].
      intros [H | [H | H]]; injection H as ->; auto.
    - split; [intros [[|]|]; done | intros [|[|]]; done]. }
  destruct (String.eqb flag "t" || String.eqb flag "1" || String.eqb flag "true").
  - split_and!; [| by intros argv [= <-] | done].
    split; [intros _; by apply Hflag | by eexists].
  - split_and!; [| done |].
    + split; [by intros [argv ?] | intros H; by apply Hflag in H].
    + intros line [= <-]. unfold ReleaseDocs.star. simpl.
      by rewrite !append_assoc.
Qed.


(** ** The statements on the small instance *)

Import Demo.








Lemma WriteSeries_progress_witness :
  (exists res w', WriteSeries 6 (client 2) five (world []) = (Some (Returns res), w')) /\
  (forall fuel statusCode w',
     WriteSeries fuel (client 0) five (world []) ≠ (Some (Returns (statusCode, None)), w')) /\
  (forall fuel statusCode w',
     WriteSeries fuel (client (-1)) five (world []) ≠ (Some (Returns (statusCode, None)), w')).
Proof.
  split_and!.
  - apply (proj1 (WriteSeries_progress (client 2) five (world []))); simpl; lia.
  - apply (proj2 (WriteSeries_progress (client 0) five (world []))); [simpl; lia | discriminate].
  - apply (proj2 (WriteSeries_progress (client (-1)) five (world []))); [simpl; lia | discriminate].
Defined.

Lemma NewClient_requires_endpoints_witness :
  exists msg,
    NewClient write_only tt
    = (None, Some (errors_New msg)) /\
    msg = "the read endpoint has not been set".
Proof.
  destruct (NewClient_requires_endpoints
              write_only tt)
    as (msg & Hnew & _ & Hread); [right; reflexivity|].
  exists msg. split; [exact Hnew | apply Hread; discriminate].
Defined.

Lemma QueryRange_matrix_only_witness :
  QueryRange (client 2) "up" 0 60 15 (world [answer 200 "200 OK" [Byte.x76]])
  = (Returns ([], Some (errors_New "was expecting to get a Matrix")),
     (API_QueryRange (readClient (client 2)) "up" {| Start := 0; End_ := 60; Step := 15 |}
        (world [answer 200 "200 OK" [Byte.x76]])).2).
Proof.
  apply (QueryRange_matrix_only (client 2) "up" 0 60 15
           (world [answer 200 "200 OK" [Byte.x76]]) (Value_Vector [])
           (API_QueryRange (readClient (client 2)) "up" {| Start := 0; End_ := 60; Step := 15 |}
              (world [answer 200 "200 OK" [Byte.x76]])).2);
    [reflexivity | discriminate].
Defined.

Lemma tenant_header_witness :
  Forall (fun x : Exchange => Header_Get (ReqHeader x.1) "X-Scope-OrgID" = "anonymous")
    (issued (world []) (WriteSeries 6 (client 2) five (world [])).2) /\
  Forall (fun x : Exchange => Header_Get (ReqHeader x.1) "X-Scope-OrgID" = "anonymous")
    (issued (world []) (QueryRange (client 2) "up" 0 60 15 (world [])).2).
Proof.
  destruct (proj2 tenant_header (config 2) tt (client 2) eq_refl) as [Hwrite Hread].
  split; apply Forall_forall; intros x Hx.
  - exact (Hwrite 6%nat five (world []) x Hx).
  - exact (Hread "up" 0 60 15 (world []) x Hx).
Defined.

(** ** The further properties on the small instance *)

Lemma WriteSeries_nil_error_iff_witness :
  exists e w',
    WriteSeries 6 (client 2) five (world [ok; unavailable])
    = (Some (Returns (503, Some e)), w') /\
    len (issued (world [ok; unavailable]) w') <= 3 /\
    exists req resp,
      issued (world [ok; unavailable]) w' !! O = Some (req, inl resp) /\
      is2xx (StatusCode resp) = true.
Proof.
  destruct (WriteSeries_nil_error_iff (config 2) tt (client 2) 6 five
              (world [ok; unavailable]))
    as (statusCode & err & w' & Hcall & Hplain);
    [reflexivity | simpl; lia | simpl; lia |].
  assert (Hrun := Hcall). injection Hrun as <- <- <-.
  destruct Hplain as (Hmost & Hbefore & _); [vm_compute; repeat constructor|].
  eexists _, _. split; [exact Hcall|]. split; [exact Hmost|].
  apply Hbefore. simpl. lia.
Defined.

Lemma WriteSeries_status_and_error_witness :
  exists statusCode err w',
    WriteSeries 6 (client 2) five (world [ok; unavailable])
    = (Some (Returns (statusCode, err)), w') /\
    (err = None <-> 200 <= statusCode <= 299).
Proof.
  apply (WriteSeries_status_and_error (config 2) tt (client 2) 6 five
           (world [ok; unavailable]));
    [reflexivity | simpl; lia | simpl; lia | discriminate].
Defined.

Lemma WriteSeries_batches_concat_witness :
  exists w' batches,
    WriteSeries 6 (client 2) five (world []) = (Some (Returns (204, None)), w') /\
    Forall2 (fun batch (x : Exchange) =>
               exists data,
                 proto_Marshal {| Timeseries := batch |} = inl data /\
                 ReqBody x.1 = snappy_Encode data)
            batches (issued (world []) w') /\
    concat batches = five.
Proof.
  destruct (WriteSeries_batches_concat (config 2) tt (client 2) 6 five (world []))
    as (statusCode & err & w' & batches & Hcall & Hplain);
    [reflexivity | simpl; lia | simpl; lia |].
  assert (Hrun := Hcall). injection Hrun as <- <- <-.
  destruct Hplain as (Hbodies & _ & Hall); [vm_compute; repeat constructor|].
  eexists _, batches. split; [exact Hcall|]. split; [exact Hbodies | exact (Hall eq_refl)].
Defined.

Lemma WriteSeries_batch_sizes_witness :
  exists w',
    WriteSeries 6 (client 2) five (world []) = (Some (Returns (204, None)), w') /\
    forall (i : nat) req r,
      issued (world []) w' !! i = Some (req, r) ->
      exists batch data,
        proto_Marshal {| Timeseries := batch |} = inl data /\
        ReqBody req = snappy_Encode data /\
        len batch = Z.min 2 (len five - Z.of_nat i * 2) /\
        1 <= len batch <= 2 /\
        ((S i < length (issued (world []) w'))%nat -> len batch = 2).
Proof.
  destruct (WriteSeries_batch_sizes (config 2) tt (client 2) 6 five (world []))
    as (statusCode & err & w' & Hcall & Hplain);
    [reflexivity | simpl; lia | simpl; lia |].
  assert (Hrun := Hcall). injection Hrun as <- <- <-.
  eexists. split; [exact Hcall|].
  apply Hplain. vm_compute. repeat constructor.
Defined.

Lemma sendWriteRequest_outcome_witness :
  exists statusCode err w',
    sendWriteRequest (client 2) {| Timeseries := five |} (world [moved; unavailable])
    = ((statusCode, err), w') /\
    (length (issued (world [moved; unavailable]) w') <= 10)%nat /\
    (err = None <->
     exists httpReq resp,
       last (issued (world [moved; unavailable]) w') = Some (httpReq, inl resp) /\
       200 <= StatusCode resp <= 299 /\ statusCode = StatusCode resp) /\
    (issued (world [moved; unavailable]) w' = [] <->
     exists e, prepared (config 2) {| Timeseries := five |} = inr e).
Proof.
  destruct (sendWriteRequest_outcome (config 2) tt (client 2) {| Timeseries := five |}
              (world [moved; unavailable]))
    as (statusCode & err & w' & Hcall & Hten & _ & Hnil & Hnone & _); [reflexivity|].
  exists statusCode, err, w'. split; [exact Hcall|]. split; [exact Hten|].
  split; [exact Hnil | exact Hnone].
Defined.

Lemma WriteSeries_request_shape_witness :
  exists x,
    issued (world []) (WriteSeries 6 (client 2) five (world [])).2 !! 2%nat = Some x /\
    Method x.1 = "POST" /\
    URL x.1 = "http://mimir/api/v1/push" /\
    ReqBody x.1 = [Byte.xff; Byte.x05] /\
    ReqHeader x.1 !! "X-Prometheus-Remote-Write-Version" = Some ["0.1.0"] /\
    ReqHeader x.1 !! "Content-Encoding" = Some ["snappy"].
Proof.
  destruct (issued (world []) (WriteSeries 6 (client 2) five (world [])).2 !! 2%nat)
    as [x|] eqn:Hx; [|discriminate Hx].
  destruct (WriteSeries_request_shape (config 2) tt (client 2) 6 five (world []) x)
    as (Hmethod & Hurl & _ & _ & Hheaders);
    [reflexivity | intros u _; reflexivity | vm_compute; repeat constructor
    | by eapply list_elem_of_lookup_2 |].
  destruct Hheaders as (Hce & _ & _ & Hver & _).
  { apply (bool_decide_unpack
             (NoDup ["Content-Encoding"; "Content-Type"; "User-Agent";
                     "X-Prometheus-Remote-Write-Version"; "X-Scope-OrgID"])).
    by vm_compute. }
  exists x. split; [reflexivity|]. split; [exact Hmethod|].
  split; [by injection Hurl|].
  split; [by injection Hx as <- | by split].
Defined.

Lemma WriteSeries_zero_batch_spins_witness :
  exists w',
    WriteSeries 7 (client 0) five (world []) = (None, w') /\
    length (issued (world []) w') = 7%nat.
Proof.
  destruct (prepared (config 0) {| Timeseries := [] |}) as [httpReq | e] eqn:Hprep;
    [|discriminate Hprep].
  destruct (WriteSeries_zero_batch_spins (config 0) tt (client 0) five
              (fun n => n = []) httpReq) with (fuel := 7%nat) (w := world [])
    as (w' & Hcall & Hlen & _).
  - reflexivity.
  - reflexivity.
  - discriminate.
  - exact Hprep.
  - intros req n ->. exists no_content, []. by split_and!.
  - reflexivity.
  - exists w'. by split.
Defined.

Lemma WriteSeries_bad_write_endpoint_witness :
  exists err,
    WriteSeries 1 (Fixtures.bad_write_client 2) five (world [])
    = (Some (Returns (0, Some err)), world []) /\
    issued (world []) (world []) = [].
Proof.
  eapply (WriteSeries_bad_write_endpoint (Fixtures.bad_write 2) tt
            (Fixtures.bad_write_client 2) 0 five (world []));
    [reflexivity | simpl; lia | discriminate | reflexivity].
Defined.

Lemma RegisterFlags_defaults_witness :
  exists conf' f',
    RegisterFlags (F := Fixtures.flags) Fixtures.zero_config [] = Returns (conf', f') /\
    WriteBatchSize conf' = 1000 /\
    exists msg, NewClient conf' tt = (None, Some (errors_New msg)).
Proof.
  destruct (RegisterFlags (F := Fixtures.flags) Fixtures.zero_config [])
    as [[conf' f'] | msg] eqn:Hreg; [|discriminate Hreg].
  destruct (RegisterFlags_defaults (F := Fixtures.flags) Fixtures.zero_config conf' [] f' tt Hreg)
    as ((_ & HB & _) & Hunset & _).
  exists conf', f'. split; [reflexivity|]. split; [exact HB|].
  apply Hunset. left. reflexivity.
Defined.
